(** * Kids Weekly Planner: the event scheduling core

    A shallow embedding of the scheduling logic of [KidsWeeklyPlanner.tsx]
    (time model, overlap test, sorted view, save / delete, CSV export and
    import, the persisted-state loader) and the properties the
    specification states about it.

    Conventions.
    - A JavaScript string is a [string]: each character stands for the
      UTF-16 code unit of the same number, so the development covers the
      strings whose code units are below 256.  All the characters the code
      inspects (quote, comma, colon, line breaks, digits, white space) are
      in that range.
    - A JavaScript number is a [JS.number]: [NaN] or an exact rational.
      Every number the scheduling code computes from an [HH:MM] time is a
      multiple of one half of small magnitude, which binary64 represents
      and combines without rounding.  The two infinities and the rounding
      of other values are not represented; the statements below say which
      times or numbers they are about.
    - A JavaScript object built as a dictionary is a [gmap string string]. *)

From Stdlib Require Import QArith Qminmax Qround ZArith Ascii String DecimalString List Lia OrderedTypeEx Sorted.
From stdpp Require Import gmap strings list.

Local Open Scope string_scope.
Local Open Scope list_scope.

(** ** The JavaScript runtime functions the code calls *)

Module JS.

(** *** Numbers *)

Inductive number : Type :=
| NaN
| Num (q : Q).

Definition of_Z (z : Z) : number := Num (inject_Z z).

Definition Qltb (p q : Q) : bool := negb (Qle_bool q p).

(** [x - y], [x + y], [x * y]: [NaN] is absorbing. *)
Definition sub (x y : number) : number :=
  match x, y with
  | Num p, Num q => Num (p - q)
  | _, _ => NaN
  end.

Definition add (x y : number) : number :=
  match x, y with
  | Num p, Num q => Num (p + q)
  | _, _ => NaN
  end.

Definition mul (x y : number) : number :=
  match x, y with
  | Num p, Num q => Num (p * q)
  | _, _ => NaN
  end.

(** [x < y], [x > y], [x >= y]: every comparison with [NaN] is false. *)
Definition ltb (x y : number) : bool :=
  match x, y with
  | Num p, Num q => Qltb p q
  | _, _ => false
  end.

Definition gtb (x y : number) : bool := ltb y x.

Definition geb (x y : number) : bool :=
  match x, y with
  | Num p, Num q => Qle_bool q p
  | _, _ => false
  end.

(** [Math.max(x, y)] and [Math.min(x, y)]: [NaN] if either argument is. *)
Definition max (x y : number) : number :=
  match x, y with
  | Num p, Num q => Num (if Qle_bool p q then q else p)
  | _, _ => NaN
  end.

Definition min (x y : number) : number :=
  match x, y with
  | Num p, Num q => Num (if Qle_bool p q then p else q)
  | _, _ => NaN
  end.

(** Two numbers denote the same value. *)
Definition same (x y : number) : Prop :=
  match x, y with
  | NaN, NaN => True
  | Num p, Num q => (p == q)%Q
  | _, _ => False
  end.

(** *** Strings *)

Definition code (c : ascii) : nat := nat_of_ascii c.

Definition quote : ascii := ascii_of_nat 34.
Definition comma : ascii := ","%char.
Definition colon : ascii := ":"%char.
Definition LF : ascii := ascii_of_nat 10.
Definition CR : ascii := ascii_of_nat 13.

(** White space and line terminators, as [String.prototype.trim] and
    [Number] strip them: TAB, LF, VT, FF, CR, SP and NBSP. *)
Definition is_space (c : ascii) : bool :=
  match code c with
  | 9 | 10 | 11 | 12 | 13 | 32 | 160 => true
  | _ => false
  end.

Fixpoint trimStart (s : string) : string :=
  match s with
  | EmptyString => EmptyString
  | String c s' => if is_space c then trimStart s' else s
  end.

(** [trimEnd] keeps a character when it is not white space or when
    something that is kept follows it. *)
Fixpoint trimEnd (s : string) : string :=
  match s with
  | EmptyString => EmptyString
  | String c s' =>
      match trimEnd s' with
      | EmptyString => if is_space c then EmptyString else String c EmptyString
      | t => String c t
      end
  end.

Definition trim (s : string) : string := trimEnd (trimStart s).

(** [s.split(sep)] for a one-character separator: never empty. *)
Fixpoint split (sep : ascii) (s : string) : list string :=
  match s with
  | EmptyString => [EmptyString]
  | String c s' =>
      if Ascii.eqb c sep then EmptyString :: split sep s'
      else match split sep s' with
           | [] => [String c EmptyString]
           | h :: t => String c h :: t
           end
  end.

Definition starts_with (c : ascii) (s : string) : bool :=
  match s with
  | String d _ => Ascii.eqb d c
  | EmptyString => false
  end.

(** [s.split(/\r?\n/)]: a line feed ends the piece, and a carriage return
    directly before a line feed belongs to the separator. *)
Fixpoint split_lines (s : string) : list string :=
  match s with
  | EmptyString => [EmptyString]
  | String c s' =>
      if Ascii.eqb c LF then EmptyString :: split_lines s'
      else if Ascii.eqb c CR && starts_with LF s' then split_lines s'
      else match split_lines s' with
           | [] => [String c EmptyString]
           | h :: t => String c h :: t
           end
  end.

(** [l.join(sep)]. *)
Fixpoint join (sep : string) (l : list string) : string :=
  match l with
  | [] => EmptyString
  | [x] => x
  | x :: l' => x ++ sep ++ join sep l'
  end.

(** [s.replaceAll(c, by)] for a one-character pattern. *)
Fixpoint replaceAll (c : ascii) (by_ : string) (s : string) : string :=
  match s with
  | EmptyString => EmptyString
  | String d s' =>
      if Ascii.eqb d c then by_ ++ replaceAll c by_ s'
      else String d (replaceAll c by_ s')
  end.

(** [l.filter(Boolean)] on strings: the empty string is the falsy one. *)
Definition truthy (s : string) : bool :=
  match s with EmptyString => false | _ => true end.

(** [a >= b] on strings: code units compared from the left. *)
Definition str_geb (a b : string) : bool := negb (String.ltb a b).

(** *** [Number(s)]

    White space is stripped; the empty string is [0]; a run of decimal
    digits is its value.  Signed, fractional, exponent, radix-prefixed and
    [Infinity] literals are not modelled (they read as [NaN] here): no
    statement below about a time's row relies on them. *)

Definition is_digit (c : ascii) : bool :=
  (48 <=? code c)%nat && (code c <=? 57)%nat.

Definition digit_value (c : ascii) : Z := Z.of_nat (code c) - 48.

Fixpoint digits (acc : Z) (s : string) : option Z :=
  match s with
  | EmptyString => Some acc
  | String c s' =>
      if is_digit c then digits (10 * acc + digit_value c) s' else None
  end.

Definition Number (s : string) : number :=
  match trim s with
  | EmptyString => of_Z 0
  | t => match digits 0 t with
         | Some z => of_Z z
         | None => NaN
         end
  end.

(** *** [Array.prototype.indexOf] and [Array.prototype.sort] *)

Fixpoint indexFrom (i : Z) (l : list string) (x : string) : Z :=
  match l with
  | [] => (-1)%Z
  | y :: l' => if String.eqb y x then i else indexFrom (i + 1) l' x
  end.

Definition indexOf (l : list string) (x : string) : Z := indexFrom 0 l x.

(** [sort] is stable, and a comparator result that is positive moves the
    first argument behind the second; zero and [NaN] leave the two in
    place.  The engine's algorithm is not fixed by the language; for a
    comparator that is a difference of keys every stable algorithm returns
    the list below. *)
Section Sort.
Context {A : Type} (cmp : A -> A -> number).

Fixpoint insert (x : A) (l : list A) : list A :=
  match l with
  | [] => [x]
  | y :: l' => if gtb (cmp x y) (of_Z 0) then y :: insert x l' else x :: l
  end.

Definition sort (l : list A) : list A := foldr insert [] l.

End Sort.

End JS.

(** ** The data model *)

(** [type EventItem].  The weekday is kept as the string it is at run
    time: the CSV import stores whatever the file holds. *)
Record EventItem : Type := mkEvent {
  id : string;
  title : string;
  day : string;
  start : string;
  end_ : string;
  category : string;
  color : string;
  notes : option string
}.

Definition DAYS : list string :=
  ["Monday"; "Tuesday"; "Wednesday"; "Thursday"; "Friday"; "Saturday"; "Sunday"].

Definition defaultAccent : string := "#2563eb".

(** ** Time model and overlap detector *)

(** [const [h, m] = time.split(':').map(Number)]: a missing second piece
    leaves [m] undefined, and [undefined >= 30] is false. *)
Definition timeToRow (time : string) : JS.number :=
  let parts := map JS.Number (JS.split JS.colon time) in
  let h := parts !! 0%nat in
  let m := parts !! 1%nat in
  JS.add
    (match h with Some h => JS.sub h (JS.of_Z 7) | None => JS.NaN end)
    (match m with
     | Some m => if JS.geb m (JS.of_Z 30) then JS.Num (1 # 2) else JS.of_Z 0
     | None => JS.of_Z 0
     end).

Definition overlaps (a b : EventItem) : bool :=
  if negb (String.eqb (day a) (day b)) then false
  else
    let sa := timeToRow (start a) in
    let ea := timeToRow (end_ a) in
    let sb := timeToRow (start b) in
    let eb := timeToRow (end_ b) in
    JS.ltb (JS.max sa sb) (JS.min ea eb).


(** ** Sort / layout engine *)

(** The comparator of [sortedEvents]. *)
Definition sortedEvents_cmp (a b : EventItem) : JS.number :=
  if negb (String.eqb (day a) (day b))
  then JS.sub (JS.of_Z (JS.indexOf DAYS (day a))) (JS.of_Z (JS.indexOf DAYS (day b)))
  else JS.sub (timeToRow (start a)) (timeToRow (start a)).

Definition sortedEvents (events : list EventItem) : list EventItem :=
  JS.sort sortedEvents_cmp events.

Definition rowHeight : JS.number := JS.of_Z 48.

Definition density (denseHours : bool) : JS.number :=
  JS.of_Z (if denseHours then 2 else 1).

(** [top] and [height] of an event block in the events layer. *)
Definition top (denseHours : bool) (e : EventItem) : JS.number :=
  JS.mul (JS.mul (timeToRow (start e)) rowHeight) (density denseHours).

Definition height (denseHours : bool) (e : EventItem) : JS.number :=
  JS.mul
    (JS.mul (JS.sub (timeToRow (end_ e)) (timeToRow (start e))) rowHeight)
    (density denseHours).

(** ** Event store *)

(** The component state the handlers read and write. *)
Record state : Type := mkState {
  events : list EventItem;
  editing : option EventItem;
  open : bool
}.

(** What a handler does, in the order it does it. *)
Inductive effect : Type :=
| Alert (heading message : string)
| SetEvents (next : list EventItem)
| SetOpen (b : bool)
| Download (filename content : string).

Definition apply_effect (st : state) (f : effect) : state :=
  match f with
  | Alert _ _ => st
  | SetEvents next => mkState next (editing st) (open st)
  | SetOpen b => mkState (events st) (editing st) b
  | Download _ _ => st
  end.

Definition run (st : state) (fs : list effect) : state :=
  foldl apply_effect st fs.

Definition same_id (x : string) (e : EventItem) : bool := String.eqb (id e) x.

(** The updater [saveEvent] hands to [setEvents]. *)
Definition upsert (ed : EventItem) (prev : list EventItem) : list EventItem :=
  match find (same_id (id ed)) prev with
  | Some _ => map (fun e => if same_id (id ed) e then ed else e) prev
  | None => prev ++ [ed]
  end.

Definition overlapsWith (ed : EventItem) (evs : list EventItem) : bool :=
  existsb (fun e => negb (same_id (id ed) e) && overlaps e ed) evs.

(** The handler runs synchronously, so the [prev] its updater receives is
    the [events] of the state it was called in. *)
Definition saveEvent (st : state) : list effect :=
  match editing st with
  | None => []
  | Some ed =>
      if negb (JS.truthy (JS.trim (title ed)))
      then [Alert "Error" "Please add a title"]
      else if JS.str_geb (start ed) (end_ ed)
      then [Alert "Error" "End time must be after start time"]
      else
        (if overlapsWith ed (events st)
         then [Alert "Warning" "This overlaps another event on the same day."]
         else [])
        ++ [SetEvents (upsert ed (events st)); SetOpen false]
  end.

Definition deleteEvent (x : string) (st : state) : list effect :=
  [SetEvents (List.filter (fun e => negb (same_id x e)) (events st))].

(** ** Tabular codec *)

Definition header : list string :=
  ["title"; "day"; "start"; "end"; "category"; "color"; "notes"].

(** [(e as any)[h]]: [None] is [undefined]. *)
Definition prop (e : EventItem) (h : string) : option string :=
  if String.eqb h "id" then Some (id e)
  else if String.eqb h "title" then Some (title e)
  else if String.eqb h "day" then Some (day e)
  else if String.eqb h "start" then Some (start e)
  else if String.eqb h "end" then Some (end_ e)
  else if String.eqb h "category" then Some (category e)
  else if String.eqb h "color" then Some (color e)
  else if String.eqb h "notes" then notes e
  else None.

Definition str (c : ascii) : string := String c EmptyString.

(** One cell: quotes doubled, the whole wrapped in quotes. *)
Definition cell (v : string) : string :=
  str JS.quote ++ JS.replaceAll JS.quote (str JS.quote ++ str JS.quote) v ++ str JS.quote.

Definition csv_rows (evs : list EventItem) : list (list string) :=
  map (fun e => map (fun h => default EmptyString (prop e h)) header) evs.

(** The text [exportCSV] builds. *)
Definition csv (evs : list EventItem) : string :=
  JS.join (str JS.LF)
    (JS.join "," header :: map (fun r => JS.join "," (map cell r)) (csv_rows evs)).

Definition exportCSV (web : bool) (st : state) : list effect :=
  if web then [Download "kids-weekly-planner.csv" (csv (events st))]
  else [Alert "Not supported" "CSV export is available on web."].

(** ** Exceptions *)

(** The outcome of evaluating JavaScript code that may throw. *)
Inductive completion (A : Type) : Type :=
| Return (a : A)
| Throw (err : string).
Arguments Return {A} a.
Arguments Throw {A} err.

Definition bind {A B : Type} (m : completion A) (k : A -> completion B) : completion B :=
  match m with
  | Return a => k a
  | Throw err => Throw err
  end.

(** [try { body } catch { handler }]. *)
Definition try_catch {A : Type} (body handler : completion A) : completion A :=
  match body with
  | Return a => Return a
  | Throw _ => handler
  end.

(** ** CSV import *)

(** The first alternative of the field pattern at the start of [s]: a
    quote, characters other than quotes, a quote.  [until_quote] returns the
    text up to and including the first quote. *)
Fixpoint until_quote (s : string) : option string :=
  match s with
  | EmptyString => None
  | String c s' =>
      if Ascii.eqb c JS.quote then Some (str c)
      else option_map (String c) (until_quote s')
  end.

Definition quoted_here (s : string) : option string :=
  match s with
  | EmptyString => None
  | String c s' =>
      if Ascii.eqb c JS.quote then option_map (String c) (until_quote s')
      else None
  end.

(** The second alternative: the longest run of characters other than
    commas, which has to be non-empty. *)
Fixpoint not_commas (s : string) : string :=
  match s with
  | EmptyString => EmptyString
  | String c s' =>
      if Ascii.eqb c JS.comma then EmptyString else String c (not_commas s')
  end.

Definition bare_here (s : string) : option string :=
  match not_commas s with
  | EmptyString => None
  | m => Some m
  end.

Definition match_here (s : string) : option string :=
  match quoted_here s with
  | Some m => Some m
  | None => bare_here s
  end.

(** The global match: at each position outside the previous match the
    pattern is tried; a match is recorded and the search resumes behind
    it. [skip] counts the characters of the previous match still ahead. *)
Fixpoint match_from (skip : nat) (s : string) : list string :=
  match s with
  | EmptyString => []
  | String _ s' =>
      match skip with
      | S k => match_from k s'
      | O =>
          match match_here s with
          | Some m => m :: match_from (String.length m - 1) s'
          | None => match_from 0 s'
          end
      end
  end.

(** [line.match(pattern)] for the global field pattern of [importCSVWeb],
    with the [null] of a line without a match read as the empty list. *)
Definition match_fields (line : string) : list string := match_from 0 line.

Definition unquote (x : string) : string := JS.replaceAll JS.quote EmptyString x.

(** [cols.forEach((c, i) => (obj[c] = items[i] ?? ''))]. *)
Fixpoint assign_cols (items : list string) (i : nat) (cols : list string)
    (obj : gmap string string) : gmap string string :=
  match cols with
  | [] => obj
  | c :: cols' =>
      assign_cols items (S i) cols' (<[c := default EmptyString (items !! i)]> obj)
  end.

(** The object one data line becomes; [uuid] is what [crypto.randomUUID()]
    returned for it. *)
Definition row_object (cols : list string) (uuid : string) (line : string)
    : gmap string string :=
  let items := map unquote (match_fields line) in
  <["id" := uuid]> (assign_cols items 0 cols ∅).

(** [obj as EventItem].  The cast does nothing at run time.  A property the
    header did not name is absent from the object, which the declared type
    does not allow for the fields other than [notes]; the record holds the
    empty string for it. *)
Definition asEventItem (obj : gmap string string) : EventItem :=
  let get k := default EmptyString (obj !! k) in
  {| id := get "id"; title := get "title"; day := get "day";
     start := get "start"; end_ := get "end"; category := get "category";
     color := get "color"; notes := obj !! "notes" |}.

(** The non-empty lines of the file. *)
Definition csv_lines (text : string) : list string :=
  List.filter JS.truthy (JS.split_lines text).

Definition csv_cols (h : string) : list string :=
  map (fun x => JS.trim (unquote x)) (JS.split JS.comma h).

(** The body of the [try]: with no line at all [h] is undefined and
    [h.split] throws.  [randomUUID n] is the value the call for data line
    [n] returns. *)
Definition parseCSV (randomUUID : nat -> string) (text : string)
    : completion (list (gmap string string)) :=
  match csv_lines text with
  | [] => Throw "TypeError"
  | h :: rest =>
      let cols := csv_cols h in
      Return (imap (fun n line => row_object cols (randomUUID n) line) rest)
  end.

(** [try { ...; setEvents(out); Alert.alert('Imported', ...) }
    catch { Alert.alert('Error', ...) }]. *)
Definition importCSVWeb (randomUUID : nat -> string) (text : string) : list effect :=
  match parseCSV randomUUID text with
  | Return out =>
      [SetEvents (map asEventItem out); Alert "Imported" "Imported events from CSV"]
  | Throw _ => [Alert "Error" "Failed to import CSV"]
  end.

(** ** Snapshot codec: the loader *)

(** A parsed JSON text. *)
#[local] Unset Elimination Schemes.
Inductive json : Type :=
| JNull
| JBool (b : bool)
| JNum (q : Q)
| JStr (s : string)
| JArr (l : list json)
| JObj (l : list (string * json)).
#[local] Set Elimination Schemes.

Section Loader.

(** [JSON.parse], which throws on a text that is not JSON, and
    [AsyncStorage.getItem], which resolves to the stored text or to
    [null] ([None]) or rejects. *)
Variable JSON_parse : string -> completion json.
Variable getItem : string -> completion (option string).

Definition getLS (key : string) (fallback : json) : completion json :=
  try_catch
    (bind (getItem key) (fun raw =>
       match raw with
       | Some raw => if JS.truthy raw then JSON_parse raw else Return fallback
       | None => Return fallback
       end))
    (Return fallback).

End Loader.

(** The keys the start-up effect loads, each with its default. *)
Definition persisted : list (string * json) :=
  [("kwp:title", JStr "Kids Weekly Planner");
   ("kwp:bgColor", JStr "#f8fafc");
   ("kwp:accent", JStr defaultAccent);
   ("kwp:photo", JNull);
   ("kwp:events", JArr []);
   ("kwp:dense", JBool false)].

(** The start-up effect: the values handed to the six setters, in order. *)
Definition hydrate (JSON_parse : string -> completion json)
    (getItem : string -> completion (option string)) : list (completion json) :=
  map (fun kd => getLS JSON_parse getItem (fst kd) (snd kd)) persisted.

(** ** Row labels *)

(** [String(n)] for an integer [n]: its decimal numeral. *)
Definition String_of_int (n : Z) : string := NilZero.string_of_int (Z.to_int n).

Fixpoint repeat_char (c : ascii) (n : nat) : string :=
  match n with
  | O => EmptyString
  | S n' => String c (repeat_char c n')
  end.

(** [s.padStart(n, c)] for a one-character filler. *)
Definition padStart (n : nat) (c : ascii) (s : string) : string :=
  (repeat_char c (n - String.length s) ++ s)%string.

(** [formatHour].  [Math.floor(h)] is an integer and is kept as one; on
    integers [%] is the remainder of the division that truncates towards
    zero.  For [NaN] the floor and the hour are [NaN], the comparison is
    false and [String(NaN)] is longer than the padding. *)
Definition formatHour (h : JS.number) : string :=
  match h with
  | JS.NaN => (padStart 2 "0" "NaN" ++ ":00")%string
  | JS.Num q =>
      let whole := Qfloor q in
      let mins :=
        if JS.gtb (JS.sub h (JS.of_Z whole)) (JS.of_Z 0) then ":30" else ":00" in
      let hh := Z.rem (Z.rem whole 24 + 24) 24 in
      (padStart 2 "0" (String_of_int hh) ++ mins)%string
  end.

(** [HOURS], and the labels of the time column: the hours, or in dense
    mode twice as many half hours. *)
Definition HOURS : list JS.number :=
  map (fun i => JS.add (JS.of_Z 7) (JS.of_Z (Z.of_nat i))) (seq 0 15).

Definition rowLabels (denseHours : bool) : list JS.number :=
  if denseHours
  then map (fun i => JS.add (JS.of_Z 7) (JS.mul (JS.of_Z (Z.of_nat i)) (JS.Num (1 # 2))))
           (seq 0 (length HOURS * 2))
  else HOURS.

(** The events drawn in the column of weekday [d], and the seven columns. *)
Definition column (d : string) (evs : list EventItem) : list EventItem :=
  List.filter (fun e => String.eqb (day e) d) (sortedEvents evs).

Definition columns (evs : list EventItem) : list (list EventItem) :=
  map (fun d => column d evs) DAYS.

(** ** The form *)

(** The event [resetForm] puts in the form; [uuid] is what
    [crypto.randomUUID()] returned and [accent] the current accent colour. *)
Definition resetForm (uuid accent : string) : EventItem :=
  {| id := uuid; title := EmptyString; day := "Monday"; start := "09:00";
     end_ := "10:00"; category := "School"; color := accent;
     notes := Some EmptyString |}.

Definition handleAdd (uuid accent : string) (st : state) : state :=
  mkState (events st) (Some (resetForm uuid accent)) true.

(** Pressing an event block: [setEditing(e); setOpen(true)]. *)
Definition pressEvent (e : EventItem) (st : state) : state :=
  mkState (events st) (Some e) true.

(** Typing in the title field: [setEditing({ ...editing, title: v })]. *)
Definition changeTitle (v : string) (st : state) : state :=
  match editing st with
  | Some ed =>
      mkState (events st)
        (Some (mkEvent (id ed) v (day ed) (start ed) (end_ ed) (category ed)
                       (color ed) (notes ed)))
        (open st)
  | None => st
  end.

(** The heading of the modal. *)
Definition modalTitle (st : state) : string :=
  match editing st with
  | Some ed =>
      match find (same_id (id ed)) (events st) with
      | Some _ => "Edit Event"
      | None => "Add Event"
      end
  | None => "Add Event"
  end.

(** The Delete button of the modal:
    [if (editing?.id) deleteEvent(editing.id); setOpen(false)]. *)
Definition pressDelete (st : state) : list effect :=
  match editing st with
  | Some ed =>
      (if JS.truthy (id ed) then deleteEvent (id ed) st else []) ++ [SetOpen false]
  | None => [SetOpen false]
  end.

(** ** Snapshot codec: the writer *)

Section Writer.

(** [JSON.stringify], and whether the storage accepts the write. *)
Variable JSON_stringify : json -> completion string.
Variable accepts : bool.

(** [AsyncStorage.setItem] on the stored entries. *)
Definition setItem (key raw : string) (entries : gmap string string)
    : completion (gmap string string) :=
  if accepts then Return (<[key := raw]> entries) else Throw "storage".

(** [setLS]: the entries after the call; an exception is swallowed. *)
Definition setLS (key : string) (val : json) (entries : gmap string string)
    : gmap string string :=
  match bind (JSON_stringify val) (fun raw => setItem key raw entries) with
  | Return entries' => entries'
  | Throw _ => entries
  end.

End Writer.

(** [AsyncStorage.getItem] on the stored entries. *)
Definition getItem_of (entries : gmap string string) (key : string)
    : completion (option string) :=
  Return (entries !! key).

(** * Specification vocabulary *)

(** [HH:MM]: two decimal digits, a colon, two decimal digits. *)
Definition is_HHMM (s : string) : bool :=
  match s with
  | String a (String b (String c (String d (String e EmptyString)))) =>
      JS.is_digit a && JS.is_digit b && Ascii.eqb c JS.colon
      && JS.is_digit d && JS.is_digit e
  | _ => false
  end.

(** The value of two decimal digits. *)
Definition two_digits (a b : ascii) : Z := 10 * JS.digit_value a + JS.digit_value b.

(** The hour and the minute of a well-formed time. *)
Definition hour (s : string) : Z :=
  match s with
  | String a (String b _) => two_digits a b
  | _ => 0
  end.

Definition minute (s : string) : Z :=
  match s with
  | String _ (String _ (String _ (String d (String e _)))) => two_digits d e
  | _ => 0
  end.

(** The grid row of a time, as the specification words it: hours past
    seven, plus one half from the thirtieth minute on. *)
Definition row (s : string) : Q :=
  inject_Z (hour s) - 7 + (if (30 <=? minute s)%Z then 1 # 2 else 0).

(** An event with the given id, title, weekday, start and end, for the
    examples. *)
Definition sample (i t d s e : string) : EventItem :=
  mkEvent i t d s e "School" defaultAccent (Some EmptyString).

(** The position of an event's weekday in [DAYS], and the order it
    induces on events. *)
Definition day_index (e : EventItem) : Z := JS.indexOf DAYS (day e).

Definition day_le (a b : EventItem) : Prop := (day_index a <= day_index b)%Z.

(** The two blocking checks, as the specification words them. *)
Definition valid (ed : EventItem) : Prop :=
  JS.trim (title ed) <> EmptyString
  /\ String_as_OT.lt (start ed) (end_ ed).

(** The handler reaches [setEvents]. *)
Definition commits (fs : list effect) : Prop :=
  exists next, In (SetEvents next) fs.

(** A blocking error, the advisory warning. *)
Definition is_error (f : effect) : Prop :=
  exists message, f = Alert "Error" message.

Definition warning : effect :=
  Alert "Warning" "This overlaps another event on the same day.".

(** Some stored event has the id [x]. *)
Definition stored (x : string) (evs : list EventItem) : Prop :=
  exists e, In e evs /\ id e = x.

(** No two stored events share an id. *)
Definition unique_ids (evs : list EventItem) : Prop := NoDup (map id evs).

(** The mutations of the event store. *)
Inductive mutation : Type :=
| Save
| Delete (x : string)
| Import (randomUUID : nat -> string) (text : string).

(** The state after a mutation. *)
Definition mutate (m : mutation) (st : state) : state :=
  run st match m with
         | Save => saveEvent st
         | Delete x => deleteEvent x st
         | Import randomUUID text => importCSVWeb randomUUID text
         end.

(** The first [n] identifiers the generator returns are fresh: each differs
    from the identifiers in [ids] and from those returned before it. *)
Definition fresh (randomUUID : nat -> string) (n : nat) (ids : list string) : Prop :=
  forall i : nat, (i < n)%nat ->
    (randomUUID i ∉ ids) /\ (forall j : nat, (j < i)%nat -> randomUUID j <> randomUUID i).

(** Letters as generated identifiers, for the examples. *)
Definition letter (n : nat) : string := str (ascii_of_nat (97 + n)).

(** A store of five events and one of two. *)
Definition five : list EventItem :=
  [sample "1" "Swim" "Wednesday" "10:00" "11:00";
   sample "2" "Math" "Monday" "09:00" "10:00";
   sample "3" "Bus" "Monday" "08:00" "09:00";
   sample "4" "Piano" "Friday" "16:00" "17:00";
   sample "5" "Rest" "Sunday" "13:00" "14:30"].

Definition two : list EventItem :=
  [sample "8" "Chess, then tea" "Tuesday" "15:00" "16:30";
   sample "9" "Choir" "Thursday" "17:00" "18:00"].

(** An event whose title holds double quotes, and one whose notes hold a
    line feed. *)
Definition read_aloud : EventItem :=
  mkEvent "1" ("Read " ++ str JS.quote ++ "Matilda" ++ str JS.quote)
          "Monday" "09:00" "10:00" "School" defaultAccent (Some EmptyString).

Definition packing : EventItem :=
  mkEvent "2" "Swim" "Friday" "16:00" "17:00" "Sport" defaultAccent
          (Some ("towel" ++ str JS.LF ++ "goggles")%string).

(** The character [c] occurs in [s]. *)
Fixpoint has (c : ascii) (s : string) : bool :=
  match s with
  | EmptyString => false
  | String d s' => Ascii.eqb d c || has c s'
  end.

(** A field without double quote and without line feed. *)
Definition plain (v : string) : Prop :=
  has JS.quote v = false /\ has JS.LF v = false.

(** The seven exported fields of an event, an absent note as the empty
    string. *)
Definition fields_of (e : EventItem) : list string :=
  map (fun h => default EmptyString (prop e h)) header.

(** The line [exportCSV] writes for an event. *)
Definition row_line (e : EventItem) : string :=
  JS.join "," (map cell (fields_of e)).

(** A line the line splitter gives back whole: not empty, no line feed,
    and no carriage return at its end. *)
Fixpoint whole_line (s : string) : bool :=
  match s with
  | EmptyString => false
  | String c EmptyString => negb (Ascii.eqb c JS.LF) && negb (Ascii.eqb c JS.CR)
  | String c s' => negb (Ascii.eqb c JS.LF) && whole_line s'
  end.

(** An event all of whose exported fields are plain. *)
Definition plain_event (e : EventItem) : Prop := Forall plain (fields_of e).

(** The minutes [formatHour] prints. *)
Definition mins_of (q : Q) : string :=
  if JS.gtb (JS.sub (JS.Num q) (JS.of_Z (Qfloor q))) (JS.of_Z 0) then ":30" else ":00".

(** The number is a multiple of one half. *)
Definition on_half_hour (q : Q) : Prop := exists n : Z, (q == n # 2)%Q.

(** The text holds line feeds only. *)
Fixpoint only_LF (s : string) : bool :=
  match s with
  | EmptyString => true
  | String c s' => Ascii.eqb c JS.LF && only_LF s'
  end.

(** A reader of the exported rows, after RFC 4180: a cell opens with a
    quote; inside, a quote followed by a quote is a quote of the cell, and a
    quote followed by a comma, by a line feed or by the end closes the cell,
    the row or the text. *)
Inductive reader : Type :=
| Open
| Inside (acc : string)
| Pending (acc : string).

Fixpoint read_rows (m : reader) (rows : list (list string)) (cells : list string)
    (s : string) : option (list (list string)) :=
  match s with
  | EmptyString =>
      match m with
      | Pending acc => Some (rows ++ [cells ++ [acc]])
      | _ => None
      end
  | String c s' =>
      match m with
      | Open => if Ascii.eqb c JS.quote then read_rows (Inside EmptyString) rows cells s' else None
      | Inside acc =>
          if Ascii.eqb c JS.quote then read_rows (Pending acc) rows cells s'
          else read_rows (Inside (acc ++ str c)) rows cells s'
      | Pending acc =>
          if Ascii.eqb c JS.quote then read_rows (Inside (acc ++ str JS.quote)) rows cells s'
          else if Ascii.eqb c JS.comma then read_rows Open rows (cells ++ [acc]) s'
          else if Ascii.eqb c JS.LF then read_rows Open (rows ++ [cells ++ [acc]]) [] s'
          else None
      end
  end.

Fixpoint strip_prefix (p s : string) : option string :=
  match p, s with
  | EmptyString, _ => Some s
  | String a p', String b s' => if Ascii.eqb a b then strip_prefix p' s' else None
  | String _ _, EmptyString => None
  end.

(** The reader of an exported text: the header line, then the rows, each
    behind a line feed. *)
Definition read_csv (text : string) : option (list (list string)) :=
  match strip_prefix (JS.join "," header) text with
  | Some EmptyString => Some []
  | Some (String c body) =>
      if Ascii.eqb c JS.LF then read_rows Open [] [] body else None
  | None => None
  end.

(** What follows the header line in the exported text. *)
Fixpoint csv_body (rows : list (list string)) : string :=
  match rows with
  | [] => EmptyString
  | r :: rows' => String JS.LF (JS.join "," (map cell r) ++ csv_body rows')
  end.

(** A file as a spreadsheet writes it: cells without quotes, and an empty
    cell for the empty category. *)
Definition spreadsheet_text : string :=
  (JS.join "," header ++ str JS.LF ++ "Swim,Friday,16:00,17:00,,#2563eb,towel")%string.

(** The characters of the numerals [Number] reads: digits, signs, the
    point, the exponent mark, the letters of [Infinity], of the radix
    prefixes and of the hexadecimal digits, and white space. *)
Definition numeral_char (c : ascii) : bool :=
  JS.is_digit c || JS.is_space c
  || existsb (Ascii.eqb c) (list_ascii_of_string "+-.abcdefABCDEFInityoOxX").

(** The text holds a character that is in no numeral, so that [Number]
    of it is [NaN]. *)
Fixpoint not_numeral (s : string) : bool :=
  match s with
  | EmptyString => false
  | String c s' => negb (numeral_char c) || not_numeral s'
  end.

(** The text of a time before its first colon, which [timeToRow] reads as
    the hour. *)
Definition hour_part (time : string) : string :=
  match JS.split JS.colon time with
  | p :: _ => p
  | [] => EmptyString
  end.

(** * Properties *)

(** ** Time model *)

Lemma digit_facts c :
  JS.is_digit c = true ->
  JS.is_space c = false /\ Ascii.eqb c JS.colon = false.
Proof.
  destruct c as [[] [] [] [] [] [] [] []]; intros H; vm_compute in H; try discriminate H; vm_compute; auto.
Qed.

Lemma Number_two_digits a b :
  JS.is_digit a = true -> JS.is_digit b = true ->
  JS.Number (String a (String b EmptyString)) = JS.of_Z (two_digits a b).
Proof.
  intros Ha Hb.
  destruct (digit_facts a Ha) as [Sa _], (digit_facts b Hb) as [Sb _].
  unfold JS.Number, JS.trim. cbn [JS.trimStart]. rewrite Sa.
  cbn [JS.trimEnd]. rewrite Sb. cbn [JS.digits]. rewrite Ha, Hb.
  reflexivity.
Qed.

Lemma split_HHMM a b d e :
  JS.is_digit a = true -> JS.is_digit b = true ->
  JS.is_digit d = true -> JS.is_digit e = true ->
  JS.split JS.colon (String a (String b (String JS.colon (String d (String e EmptyString)))))
  = [String a (String b EmptyString); String d (String e EmptyString)].
Proof.
  intros Ha Hb Hd He.
  destruct (digit_facts a Ha) as [_ Ca], (digit_facts b Hb) as [_ Cb],
           (digit_facts d Hd) as [_ Cd], (digit_facts e He) as [_ Ce].
  cbn [JS.split]. rewrite Ca, Cb, Cd, Ce. reflexivity.
Qed.

Lemma Qle_bool_inject (x y : Z) : Qle_bool (inject_Z x) (inject_Z y) = (x <=? y)%Z.
Proof. unfold Qle_bool. cbn. now rewrite !Z.mul_1_r. Qed.

(** On a well-formed time [timeToRow] is the row of the specification. *)
Lemma timeToRow_HHMM s : is_HHMM s = true -> timeToRow s = JS.Num (row s).
Proof.
  destruct s as [|a [|b [|c [|d [|e [|]]]]]]; try discriminate.
  cbn [is_HHMM]. rewrite !andb_true_iff.
  intros [[[[Ha Hb] Hc] Hd] He].
  apply Ascii.eqb_eq in Hc. subst c.
  unfold timeToRow. rewrite split_HHMM by assumption.
  cbn [map lookup list_lookup].
  rewrite !Number_two_digits by assumption.
  unfold JS.of_Z, row, hour, minute. cbn [JS.sub JS.geb JS.add].
  rewrite Qle_bool_inject.
  destruct (30 <=? two_digits d e)%Z; reflexivity.
Qed.

(** ** Overlap detector *)

Lemma Qltb_iff p q : JS.Qltb p q = true <-> (p < q)%Q.
Proof.
  unfold JS.Qltb. rewrite negb_true_iff, <- not_true_iff_false, Qle_bool_iff.
  split; [apply Qnot_le_lt | apply Qlt_not_le].
Qed.

Lemma Qle_bool_false p q : Qle_bool p q = false -> (q <= p)%Q.
Proof.
  intros H. apply Qlt_le_weak, Qnot_le_lt.
  rewrite <- Qle_bool_iff. congruence.
Qed.

Lemma max_Num p q : JS.same (JS.max (JS.Num p) (JS.Num q)) (JS.Num (Qmax p q)).
Proof.
  cbn. destruct (Qle_bool p q) eqn:E.
  - symmetry. apply Q.max_r. now apply Qle_bool_iff.
  - symmetry. apply Q.max_l. now apply Qle_bool_false.
Qed.

Lemma min_Num p q : JS.same (JS.min (JS.Num p) (JS.Num q)) (JS.Num (Qmin p q)).
Proof.
  cbn. destruct (Qle_bool p q) eqn:E.
  - symmetry. apply Q.min_l. now apply Qle_bool_iff.
  - symmetry. apply Q.min_r. now apply Qle_bool_false.
Qed.

Lemma ltb_same x x' y y' :
  JS.same x x' -> JS.same y y' -> JS.ltb x y = JS.ltb x' y'.
Proof.
  destruct x, x', y, y'; cbn; try tauto.
  intros Hx Hy. apply eq_true_iff_eq. rewrite !Qltb_iff. now rewrite Hx, Hy.
Qed.

(** The test of [overlaps] on four rows. *)
Lemma ltb_max_min sa ea sb eb :
  JS.ltb (JS.max (JS.Num sa) (JS.Num sb)) (JS.min (JS.Num ea) (JS.Num eb)) = true
  <-> (Qmax sa sb < Qmin ea eb)%Q.
Proof.
  rewrite (ltb_same _ _ _ _ (max_Num sa sb) (min_Num ea eb)).
  apply Qltb_iff.
Qed.

(** Swapping the two intervals does not change the test, [NaN] or not. *)
Lemma ltb_max_min_sym (sa ea sb eb : JS.number) :
  JS.ltb (JS.max sa sb) (JS.min ea eb) = JS.ltb (JS.max sb sa) (JS.min eb ea).
Proof.
  destruct sa as [|sa], sb as [|sb], ea as [|ea], eb as [|eb]; try reflexivity.
  apply eq_true_iff_eq. rewrite !ltb_max_min.
  now rewrite (Q.max_comm sa sb), (Q.min_comm ea eb).
Qed.

(** Two half-open intervals share a point exactly when the larger start
    lies before the smaller end. *)
Lemma intervals_meet sa ea sb eb :
  (Qmax sa sb < Qmin ea eb)%Q
  <-> exists x : Q, (sa <= x /\ x < ea)%Q /\ (sb <= x /\ x < eb)%Q.
Proof.
  rewrite Q.max_lub_lt_iff, !Q.min_glb_lt_iff.
  split.
  - intros [[H1 H2] [H3 H4]].
    exists (Qmax sa sb). rewrite !Q.max_lub_lt_iff.
    repeat split; auto using Q.le_max_l, Q.le_max_r.
  - intros (x & [H1 H2] & [H3 H4]).
    repeat split; eapply Qle_lt_trans; eauto.
Qed.

Lemma overlaps_other_day a b : day a <> day b -> overlaps a b = false.
Proof.
  intros H. unfold overlaps.
  apply String.eqb_neq in H. now rewrite H.
Qed.

Lemma overlaps_same_day a b :
  day a = day b ->
  overlaps a b
  = JS.ltb (JS.max (timeToRow (start a)) (timeToRow (start b)))
           (JS.min (timeToRow (end_ a)) (timeToRow (end_ b))).
Proof.
  intros H. unfold overlaps. apply String.eqb_eq in H. now rewrite H.
Qed.

(** C5. Events on different days never overlap, whatever their times; on
    the same day, with well-formed [HH:MM] times, [overlaps] holds exactly
    when the larger start row is below the smaller end row, which is when
    the half-open row intervals share a point. *)
Theorem overlaps_spec (a b : EventItem) :
  (day a <> day b -> overlaps a b = false)
  /\ (is_HHMM (start a) = true -> is_HHMM (end_ a) = true ->
      is_HHMM (start b) = true -> is_HHMM (end_ b) = true ->
      day a = day b ->
      (overlaps a b = true
       <-> (Qmax (row (start a)) (row (start b)) < Qmin (row (end_ a)) (row (end_ b)))%Q)
      /\ (overlaps a b = true
          <-> exists x : Q,
                (row (start a) <= x /\ x < row (end_ a))%Q
                /\ (row (start b) <= x /\ x < row (end_ b))%Q)).
Proof.
  split; [apply overlaps_other_day |].
  intros Hsa Hea Hsb Heb Hday.
  rewrite overlaps_same_day by assumption.
  rewrite !timeToRow_HHMM by assumption.
  rewrite <- intervals_meet.
  split; apply ltb_max_min.
Qed.

Lemma overlaps_spec_witness :
  overlaps (sample "1" "Piano" "Monday" "09:00" "10:30")
           (sample "2" "Snack" "Monday" "10:00" "11:00") = true
  <-> (Qmax (row "09:00") (row "10:00") < Qmin (row "10:30") (row "11:00"))%Q.
Proof.
  apply (overlaps_spec (sample "1" "Piano" "Monday" "09:00" "10:30")
                       (sample "2" "Snack" "Monday" "10:00" "11:00"));
    reflexivity.
Defined.

(** C6. [overlaps] is symmetric in its two events. *)
Theorem overlaps_sym (a b : EventItem) : overlaps a b = overlaps b a.
Proof.
  unfold overlaps. rewrite (String.eqb_sym (day b) (day a)).
  destruct (day a =? day b)%string; [cbn [negb] | reflexivity].
  apply ltb_max_min_sym.
Qed.

(** ** Geometry *)

(** C7. With well-formed [HH:MM] times an event block sits at
    [timeToRow(start) * R * D] and is [(timeToRow(end) - timeToRow(start)) * R * D]
    high, where [R] is the row height 48 and [D] is 1 for hourly and 2 for
    half-hourly rows; 09:00 to 10:30 on hourly rows sits at 96 and is 72 high. *)
Theorem geometry_spec (denseHours : bool) (e : EventItem) :
  is_HHMM (start e) = true -> is_HHMM (end_ e) = true ->
  let R : Q := 48%Q in
  let D : Q := (if denseHours then 2 else 1)%Q in
  (rowHeight = JS.Num R /\ density denseHours = JS.Num D)
  /\ top denseHours e = JS.Num (row (start e) * R * D)
  /\ height denseHours e = JS.Num ((row (end_ e) - row (start e)) * R * D)
  /\ (denseHours = false -> start e = "09:00" -> end_ e = "10:30" ->
      JS.same (top denseHours e) (JS.Num 96)
      /\ JS.same (height denseHours e) (JS.Num 72)).
Proof.
  intros Hs He R D.
  assert (HD : density denseHours = JS.Num D) by (unfold D; now destruct denseHours).
  unfold top, height. rewrite !timeToRow_HHMM, HD by assumption.
  split; [split; reflexivity |].
  split; [reflexivity |]. split; [reflexivity |].
  intros Hd Hs' He'. subst D. rewrite Hd, Hs', He'. split; reflexivity.
Qed.

Lemma geometry_spec_witness :
  JS.same (top false (sample "1" "Piano" "Monday" "09:00" "10:30")) (JS.Num 96)
  /\ JS.same (height false (sample "1" "Piano" "Monday" "09:00" "10:30")) (JS.Num 72).
Proof.
  apply (geometry_spec false (sample "1" "Piano" "Monday" "09:00" "10:30"));
    reflexivity.
Defined.

(** ** Sorted view *)

(** The comparator is positive exactly when the first event's weekday comes
    later in [DAYS]; the start times never decide. *)
Lemma sortedEvents_cmp_pos a b :
  JS.gtb (sortedEvents_cmp a b) (JS.of_Z 0) = (day_index b <? day_index a)%Z.
Proof.
  unfold sortedEvents_cmp, day_index.
  destruct (day a =? day b)%string eqn:E; cbn [negb].
  - apply String.eqb_eq in E. rewrite E, Z.ltb_irrefl.
    destruct (timeToRow (start a)) as [|p]; [reflexivity |].
    cbn. apply not_true_iff_false. rewrite Qltb_iff.
    unfold Qminus. rewrite Qplus_opp_r. apply Qlt_irrefl.
  - cbn. apply eq_true_iff_eq. rewrite Qltb_iff, Z.ltb_lt.
    unfold Qlt, Qminus, Qplus, Qopp, inject_Z. cbn. lia.
Qed.

Lemma filter_insert_day d x l :
  List.filter (fun e => String.eqb (day e) d) (JS.insert sortedEvents_cmp x l)
  = List.filter (fun e => String.eqb (day e) d) (x :: l).
Proof.
  induction l as [|y l IH]; [reflexivity |].
  cbn [JS.insert]. rewrite sortedEvents_cmp_pos.
  destruct (day_index y <? day_index x)%Z eqn:E; [| reflexivity].
  assert (Hne : day y <> day x).
  { intros Heq. unfold day_index in E. rewrite Heq, Z.ltb_irrefl in E. discriminate. }
  cbn [List.filter] in *. rewrite IH.
  destruct (day x =? d)%string eqn:Ex, (day y =? d)%string eqn:Ey; try reflexivity.
  apply String.eqb_eq in Ex, Ey. congruence.
Qed.

(** Within one weekday the sorted view keeps the order of the store. *)
Lemma sortedEvents_keeps_day_order d evs :
  List.filter (fun e => String.eqb (day e) d) (sortedEvents evs)
  = List.filter (fun e => String.eqb (day e) d) evs.
Proof.
  induction evs as [|x evs IH]; [reflexivity |].
  unfold sortedEvents in *. cbn [JS.sort foldr].
  fold (JS.sort sortedEvents_cmp evs).
  rewrite filter_insert_day. cbn [List.filter]. now rewrite IH.
Qed.

(** *** What the sorted view does guarantee *)

Lemma insert_perm x l : JS.insert sortedEvents_cmp x l ≡ₚ x :: l.
Proof.
  induction l as [|y l IH]; [reflexivity |].
  cbn [JS.insert]. destruct (JS.gtb _ _); [| reflexivity].
  rewrite IH. apply Permutation_swap.
Qed.

Lemma sortedEvents_perm evs : sortedEvents evs ≡ₚ evs.
Proof.
  induction evs as [|x evs IH]; [reflexivity |].
  unfold sortedEvents in *. cbn [JS.sort foldr].
  fold (JS.sort sortedEvents_cmp evs). now rewrite insert_perm, IH.
Qed.

Lemma insert_sorted x l :
  StronglySorted day_le l -> StronglySorted day_le (JS.insert sortedEvents_cmp x l).
Proof.
  induction 1 as [|y l Hl IH Hy]; [repeat constructor |].
  cbn [JS.insert]. rewrite sortedEvents_cmp_pos.
  destruct (day_index y <? day_index x)%Z eqn:E.
  - apply Z.ltb_lt in E. constructor; [exact IH |].
    rewrite insert_perm. constructor; [unfold day_le; lia | exact Hy].
  - apply Z.ltb_ge in E. constructor; [now constructor |].
    constructor; [exact E |].
    eapply Forall_impl; [exact Hy |]. unfold day_le. intros; lia.
Qed.

(** The sorted view holds the stored events in weekday order. *)
Lemma sortedEvents_sorted evs : StronglySorted day_le (sortedEvents evs).
Proof.
  induction evs as [|x evs IH]; [constructor |].
  unfold sortedEvents in *. cbn [JS.sort foldr].
  fold (JS.sort sortedEvents_cmp evs). now apply insert_sorted.
Qed.

(** C1. On the store [(Wed,10:00), (Mon,09:00), (Mon,08:00)] the sorted view
    is [(Mon,09:00), (Mon,08:00), (Wed,10:00)]: the weekdays are in order,
    but the two Monday events stay in store order although 08:00 starts
    before 09:00, since the comparator subtracts a start row from itself. *)
Theorem sortedEvents_ignores_start :
  sortedEvents [sample "1" "Swim" "Wednesday" "10:00" "11:00";
                sample "2" "Math" "Monday" "09:00" "10:00";
                sample "3" "Bus" "Monday" "08:00" "09:00"]
  = [sample "2" "Math" "Monday" "09:00" "10:00";
     sample "3" "Bus" "Monday" "08:00" "09:00";
     sample "1" "Swim" "Wednesday" "10:00" "11:00"].
Proof. vm_compute. reflexivity. Qed.

(** ** Validator and save *)

Lemma truthy_iff s : JS.truthy s = true <-> s <> EmptyString.
Proof. destruct s; cbn; split; congruence. Qed.

Lemma str_geb_iff a b : JS.str_geb a b = false <-> String_as_OT.lt a b.
Proof.
  unfold JS.str_geb, String.ltb. rewrite negb_false_iff.
  rewrite <- String_as_OT.cmp_lt. unfold String_as_OT.cmp.
  destruct (String.compare a b); split; congruence.
Qed.

Lemma valid_checks ed :
  valid ed
  <-> negb (JS.truthy (JS.trim (title ed))) = false
      /\ JS.str_geb (start ed) (end_ ed) = false.
Proof.
  unfold valid. now rewrite negb_false_iff, truthy_iff, str_geb_iff.
Qed.

Lemma same_id_iff x e : same_id x e = true <-> id e = x.
Proof. apply String.eqb_eq. Qed.

Lemma find_same_id_None x evs :
  find (same_id x) evs = None <-> ~ stored x evs.
Proof.
  unfold stored. split.
  - intros H (e & Hin & He).
    eapply find_none in H; [| exact Hin].
    apply same_id_iff in He. congruence.
  - intros H. destruct (find (same_id x) evs) as [e|] eqn:E; [| reflexivity].
    apply find_some in E as [Hin He]. apply same_id_iff in He.
    exfalso. apply H. eauto.
Qed.

Lemma upsert_stored ed prev :
  stored (id ed) prev ->
  upsert ed prev = map (fun e => if same_id (id ed) e then ed else e) prev.
Proof.
  intros H. unfold upsert.
  destruct (find (same_id (id ed)) prev) eqn:E; [reflexivity |].
  now apply find_same_id_None in E.
Qed.

Lemma upsert_new ed prev :
  ~ stored (id ed) prev -> upsert ed prev = prev ++ [ed].
Proof.
  intros H. unfold upsert. apply find_same_id_None in H. now rewrite H.
Qed.

Lemma overlapsWith_iff ed evs :
  overlapsWith ed evs = true
  <-> exists e, In e evs /\ id e <> id ed /\ overlaps e ed = true.
Proof.
  unfold overlapsWith. rewrite existsb_exists.
  split; intros (e & Hin & H); exists e; split; auto.
  - apply andb_true_iff in H as [H1 H2]. split; [| assumption].
    apply negb_true_iff in H1. intros Heq. apply same_id_iff in Heq. congruence.
  - destruct H as [H1 H2]. rewrite H2, andb_true_r.
    apply negb_true_iff, not_true_iff_false. now rewrite same_id_iff.
Qed.

Lemma valid_decidable ed : valid ed \/ ~ valid ed.
Proof.
  rewrite valid_checks.
  destruct (negb (JS.truthy (JS.trim (title ed)))), (JS.str_geb (start ed) (end_ ed));
    intuition congruence.
Qed.

(** What [saveEvent] does with a candidate that passes both checks, and
    with one that fails a check. *)
Lemma saveEvent_valid st ed :
  editing st = Some ed -> valid ed ->
  saveEvent st
  = (if overlapsWith ed (events st) then [warning] else [])
    ++ [SetEvents (upsert ed (events st)); SetOpen false].
Proof.
  intros He Hv. apply valid_checks in Hv as [H1 H2].
  unfold saveEvent. now rewrite He, H1, H2.
Qed.

Lemma saveEvent_invalid st ed :
  editing st = Some ed -> ~ valid ed ->
  exists message, saveEvent st = [Alert "Error" message].
Proof.
  intros He Hv. unfold saveEvent. rewrite He.
  destruct (negb (JS.truthy (JS.trim (title ed)))) eqn:H1; [eauto |].
  destruct (JS.str_geb (start ed) (end_ ed)) eqn:H2; [eauto |].
  exfalso. apply Hv, valid_checks. auto.
Qed.

Lemma saveEvent_valid_events st ed :
  editing st = Some ed -> valid ed ->
  events (run st (saveEvent st)) = upsert ed (events st).
Proof.
  intros He Hv. rewrite (saveEvent_valid st ed He Hv).
  destruct (overlapsWith ed (events st)); reflexivity.
Qed.

(** C3. [saveEvent] reaches [setEvents] exactly when the trimmed title is
    non-empty and start is lexicographically below end.  Then the store
    becomes the old one with the candidate appended (no stored event has
    its id) or put in the place of the event with its id, no error is
    raised, and the only effect of an overlap with a stored event of another
    id is the warning.  Otherwise one error is raised and the state is
    the one before. *)
Theorem saveEvent_spec (st : state) (ed : EventItem) :
  editing st = Some ed ->
  (commits (saveEvent st) <-> valid ed)
  /\ (valid ed ->
      (~ stored (id ed) (events st) ->
         events (run st (saveEvent st)) = events st ++ [ed])
      /\ (stored (id ed) (events st) ->
         events (run st (saveEvent st))
         = map (fun e => if String.eqb (id e) (id ed) then ed else e) (events st))
      /\ (forall f, In f (saveEvent st) -> ~ is_error f)
      /\ (In warning (saveEvent st)
          <-> exists e, In e (events st) /\ id e <> id ed /\ overlaps e ed = true))
  /\ (~ valid ed ->
      run st (saveEvent st) = st
      /\ exists message, saveEvent st = [Alert "Error" message]).
Proof.
  intros He.
  pose proof (saveEvent_valid_events st ed He) as Hrun.
  split; [| split].
  - split.
    + intros [next Hin].
      destruct (valid_decidable ed) as [Hv | Hv]; [assumption |].
      destruct (saveEvent_invalid st ed He Hv) as [m Hm].
      rewrite Hm in Hin. destruct Hin as [Hin | []]. discriminate.
    + intros Hv. exists (upsert ed (events st)).
      rewrite (saveEvent_valid st ed He Hv). apply in_or_app. right. now left.
  - intros Hv. repeat split.
    + intros Hn. now rewrite Hrun, upsert_new.
    + intros Hs. now rewrite Hrun, upsert_stored.
    + intros f Hin [m ->]. rewrite (saveEvent_valid st ed He Hv) in Hin.
      destruct (overlapsWith ed (events st)); cbn in Hin;
        intuition discriminate.
    + rewrite <- overlapsWith_iff, (saveEvent_valid st ed He Hv).
      destruct (overlapsWith ed (events st)); cbn; intuition discriminate.
    + rewrite <- overlapsWith_iff, (saveEvent_valid st ed He Hv).
      intros ->. now left.
  - intros Hv. destruct (saveEvent_invalid st ed He Hv) as [m Hm].
    split; [| eauto]. rewrite Hm. reflexivity.
Qed.

Lemma saveEvent_spec_witness :
  commits (saveEvent (mkState five (Some (sample "7" "Piano" "Monday" "09:00" "10:00")) true))
  <-> valid (sample "7" "Piano" "Monday" "09:00" "10:00").
Proof.
  apply (saveEvent_spec
           (mkState five (Some (sample "7" "Piano" "Monday" "09:00" "10:00")) true)
           (sample "7" "Piano" "Monday" "09:00" "10:00")).
  reflexivity.
Defined.

(** A title is rejected exactly when it consists of white space only. *)
Lemma trimStart_empty_iff s :
  JS.trimStart s = EmptyString
  <-> forallb JS.is_space (list_ascii_of_string s) = true.
Proof.
  induction s as [|c s IH]; cbn; [tauto |].
  destruct (JS.is_space c); cbn; [exact IH |]. split; discriminate.
Qed.

Lemma trimEnd_keeps_head c s :
  JS.is_space c = false -> JS.trimEnd (String c s) <> EmptyString.
Proof.
  intros H. cbn. destruct (JS.trimEnd s); rewrite ?H; discriminate.
Qed.

Lemma trim_empty_iff s :
  JS.trim s = EmptyString
  <-> forallb JS.is_space (list_ascii_of_string s) = true.
Proof.
  rewrite <- trimStart_empty_iff. unfold JS.trim.
  split; [| now intros ->].
  induction s as [|c s IH]; [reflexivity |].
  cbn [JS.trimStart]. destruct (JS.is_space c) eqn:E; [exact IH |].
  intros H. now apply trimEnd_keeps_head in H.
Qed.

Lemma lookup_map {A B : Type} (f : A -> B) (l : list A) (i : nat) :
  map f l !! i = f <$> l !! i.
Proof.
  revert i. induction l as [|x l IH]; intros [|i]; cbn; auto.
Qed.

Lemma map_id_replace ed evs :
  map id (map (fun e => if same_id (id ed) e then ed else e) evs) = map id evs.
Proof.
  rewrite map_map. apply map_ext. intros e.
  destruct (same_id (id ed) e) eqn:E; [| reflexivity].
  apply same_id_iff in E. congruence.
Qed.

(** C10. Saving a valid candidate whose id is stored replaces in place:
    the store keeps its length, position by position an event with another
    id stays what it was and an event with the candidate's id becomes the
    candidate, and the sequence of ids is the one before. *)
Theorem saveEvent_replaces_in_place (st : state) (ed : EventItem) :
  editing st = Some ed -> valid ed -> stored (id ed) (events st) ->
  let after := events (run st (saveEvent st)) in
  length after = length (events st)
  /\ (forall (i : nat) (e : EventItem),
        events st !! i = Some e ->
        after !! i = Some (if String.eqb (id e) (id ed) then ed else e))
  /\ (forall (i : nat) (e : EventItem),
        events st !! i = Some e -> id e <> id ed -> after !! i = Some e)
  /\ map id after = map id (events st).
Proof.
  intros He Hv Hs after.
  unfold after. clear after.
  rewrite (saveEvent_valid_events st ed He Hv), (upsert_stored ed _ Hs).
  change (fun e => if same_id (id ed) e then ed else e)
    with (fun e => if String.eqb (id e) (id ed) then ed else e).
  assert (Hat : forall (i : nat) (e : EventItem),
            events st !! i = Some e ->
            map (fun e => if String.eqb (id e) (id ed) then ed else e) (events st) !! i
            = Some (if String.eqb (id e) (id ed) then ed else e)).
  { intros i e Hi. now rewrite lookup_map, Hi. }
  repeat split.
  - apply length_map.
  - exact Hat.
  - intros i e Hi Hne. rewrite (Hat i e Hi).
    apply String.eqb_neq in Hne. now rewrite Hne.
  - apply map_id_replace.
Qed.

Lemma saveEvent_replaces_in_place_witness :
  events (run (mkState five (Some (sample "3" "Bus" "Tuesday" "07:30" "08:00")) true)
              (saveEvent (mkState five (Some (sample "3" "Bus" "Tuesday" "07:30" "08:00")) true)))
    !! 2%nat
  = Some (sample "3" "Bus" "Tuesday" "07:30" "08:00").
Proof.
  refine (proj1 (proj2
    (saveEvent_replaces_in_place
       (mkState five (Some (sample "3" "Bus" "Tuesday" "07:30" "08:00")) true)
       (sample "3" "Bus" "Tuesday" "07:30" "08:00") eq_refl _ _))
    2%nat (sample "3" "Bus" "Monday" "08:00" "09:00") eq_refl).
  - apply valid_checks. split; reflexivity.
  - exists (sample "3" "Bus" "Monday" "08:00" "09:00").
    split; [do 2 right; left |]; reflexivity.
Defined.

(** ** Id uniqueness *)

Lemma id_asEventItem_row cols uuid line :
  id (asEventItem (row_object cols uuid line)) = uuid.
Proof.
  unfold asEventItem, row_object. cbn [id]. now rewrite lookup_insert_eq.
Qed.

(** The identifiers of the imported rows are the generated ones, in order. *)
Lemma parseCSV_ids randomUUID text out :
  parseCSV randomUUID text = Return out ->
  map id (map asEventItem out) = map randomUUID (seq 0 (length out)).
Proof.
  unfold parseCSV. destruct (csv_lines text) as [|h rest]; [discriminate |].
  intros [= <-]. apply list_eq. intros i.
  rewrite !lookup_map, list_lookup_imap, length_imap.
  destruct (rest !! i) as [line|] eqn:E; cbn [fmap option_fmap option_map].
  - rewrite id_asEventItem_row.
    apply lookup_lt_Some in E. now rewrite lookup_seq_lt.
  - apply lookup_ge_None in E. now rewrite lookup_seq_ge.
Qed.

Lemma parseCSV_length randomUUID text out :
  parseCSV randomUUID text = Return out ->
  length out = (length (csv_lines text) - 1)%nat.
Proof.
  unfold parseCSV. destruct (csv_lines text) as [|h rest]; [discriminate |].
  intros [= <-]. rewrite length_imap. cbn. lia.
Qed.

Lemma NoDup_map_seq (u : nat -> string) (n : nat) :
  (forall i j : nat, (j < i)%nat -> (i < n)%nat -> u j <> u i) ->
  NoDup (map u (seq 0 n)).
Proof.
  intros H. apply NoDup_alt. intros i j x Hi Hj.
  rewrite lookup_map in Hi, Hj.
  destruct (seq 0 n !! i) as [i'|] eqn:Ei; [| discriminate].
  destruct (seq 0 n !! j) as [j'|] eqn:Ej; [| discriminate].
  apply lookup_seq in Ei as [-> Hi'], Ej as [-> Hj'].
  cbn in Hi, Hj. injection Hi as <-. injection Hj as Hj.
  destruct (Nat.lt_trichotomy i j) as [Hlt | [Heq | Hgt]]; [| assumption |].
  - exfalso. eapply H; [exact Hlt | assumption | now symmetry].
  - exfalso. eapply H; [exact Hgt | assumption | assumption].
Qed.

Lemma unique_ids_upsert ed evs : unique_ids evs -> unique_ids (upsert ed evs).
Proof.
  unfold unique_ids, upsert. intros H.
  destruct (find (same_id (id ed)) evs) eqn:E.
  - now rewrite map_id_replace.
  - rewrite map_app. apply NoDup_app. repeat split; [assumption | | ].
    + intros x Hx ->%list_elem_of_singleton.
      apply find_same_id_None in E. apply E.
      apply list_elem_of_In, in_map_iff in Hx as (e & He & Hin). exists e. auto.
    + cbn. apply NoDup_singleton.
Qed.

Lemma unique_ids_filter (p : EventItem -> bool) evs :
  unique_ids evs -> unique_ids (List.filter p evs).
Proof.
  unfold unique_ids. induction evs as [|e evs IH]; [trivial |].
  cbn. intros [Hn Hd]%NoDup_cons. destruct (p e); [| auto].
  cbn. apply NoDup_cons. split; [| auto].
  intros Hin. apply Hn.
  apply list_elem_of_In, in_map_iff in Hin as (e' & He' & Hin).
  apply list_elem_of_In, in_map_iff. exists e'. split; [assumption |].
  now apply filter_In in Hin as [Hin _].
Qed.

(** C9. If the stored events have pairwise distinct ids, they still have
    after a save, a delete or a CSV import, provided the identifiers
    generated for the imported rows are fresh. *)
Theorem unique_ids_preserved (m : mutation) (st : state) :
  unique_ids (events st) ->
  (forall randomUUID text, m = Import randomUUID text ->
     fresh randomUUID (length (csv_lines text) - 1) (map id (events st))) ->
  unique_ids (events (mutate m st)).
Proof.
  intros Hu Hfresh. destruct m as [| x | randomUUID text]; unfold mutate.
  - unfold saveEvent. destruct (editing st) as [ed|]; [| exact Hu].
    destruct (negb (JS.truthy (JS.trim (title ed)))); [exact Hu |].
    destruct (JS.str_geb (start ed) (end_ ed)); [exact Hu |].
    destruct (overlapsWith ed (events st)); cbn; now apply unique_ids_upsert.
  - cbn. now apply unique_ids_filter.
  - specialize (Hfresh randomUUID text eq_refl).
    unfold importCSVWeb.
    destruct (parseCSV randomUUID text) as [out | err] eqn:E; [| exact Hu].
    cbn. unfold unique_ids.
    rewrite (parseCSV_ids _ _ _ E), (parseCSV_length _ _ _ E).
    apply NoDup_map_seq. intros i j Hji Hi.
    now apply (proj2 (Hfresh i Hi)).
Qed.

Lemma fresh_letters : fresh letter 2 (map id five).
Proof.
  intros [|[|i]] Hi; [| | lia];
    (split; [apply (bool_decide_unpack _); vm_compute; exact I |]).
  - intros j Hj. lia.
  - intros [|j] Hj; [discriminate | lia].
Defined.

Lemma unique_ids_preserved_witness :
  unique_ids (events (mutate (Import letter (csv two)) (mkState five None false))).
Proof.
  apply unique_ids_preserved.
  - apply (bool_decide_unpack _). vm_compute. exact I.
  - intros u text [= <- <-]. exact fresh_letters.
Defined.

(** ** Import *)

Lemma assign_cols_other items i0 cols obj c :
  c ∉ cols -> assign_cols items i0 cols obj !! c = obj !! c.
Proof.
  revert i0 obj. induction cols as [|c0 cols IH]; intros i0 obj Hc; [reflexivity |].
  apply not_elem_of_cons in Hc as [Hne Hc].
  cbn [assign_cols]. rewrite IH by assumption. now apply lookup_insert_ne.
Qed.

(** A column name holds the item at its last position in the header. *)
Lemma assign_cols_lookup items i0 cols obj c i :
  cols !! i = Some c ->
  (forall j : nat, (i < j)%nat -> cols !! j <> Some c) ->
  assign_cols items i0 cols obj !! c
  = Some (default EmptyString (items !! (i0 + i)%nat)).
Proof.
  revert i0 obj i. induction cols as [|c0 cols IH]; intros i0 obj i Hi Hlast.
  - discriminate.
  - cbn [assign_cols]. destruct i as [|i].
    + injection Hi as ->. rewrite assign_cols_other.
      * now rewrite lookup_insert_eq, Nat.add_0_r.
      * intros [j Hj]%list_elem_of_lookup. apply (Hlast (S j)); [lia | exact Hj].
    + rewrite (IH (S i0) _ i Hi).
      * do 3 f_equal. lia.
      * intros j Hj. apply (Hlast (S j)). lia.
Qed.

Lemma prop_asEventItem obj c v :
  c ∈ header -> obj !! c = Some v -> prop (asEventItem obj) c = Some v.
Proof.
  intros Hc Hv. unfold header in Hc.
  repeat (apply elem_of_cons in Hc as [-> | Hc];
          [cbn; now rewrite Hv |]).
  now apply not_elem_of_nil in Hc.
Qed.

Lemma id_not_in_header : "id" ∉ header.
Proof. apply (bool_decide_unpack _). vm_compute. exact I. Qed.

Lemma parseCSV_lines randomUUID text h rows :
  csv_lines text = h :: rows ->
  parseCSV randomUUID text
  = Return (imap (fun n line => row_object (csv_cols h) (randomUUID n) line) rows).
Proof. intros H. unfold parseCSV. now rewrite H. Qed.

(** A text without any non-empty line is not imported: one error is
    raised and the state stays. *)
Lemma importCSVWeb_empty randomUUID text st :
  csv_lines text = [] ->
  importCSVWeb randomUUID text = [Alert "Error" "Failed to import CSV"]
  /\ run st (importCSVWeb randomUUID text) = st.
Proof.
  intros H. unfold importCSVWeb, parseCSV. rewrite H. split; reflexivity.
Qed.

(** What the import keeps to.  Importing a text with a header line [h]
    and further non-empty lines [rows] replaces the store wholesale:
    afterwards it holds one event per such line, in order; the event of
    line [n] carries the [n]-th generated id and, for each field the header
    names, the item the field pattern finds at the position of that name;
    the result does not depend on the store before; and when the generated
    ids are fresh no event stored before is left and no id stored before is
    in use.  Lines are not rows and items are not cells, as the theorem
    after this one shows. *)
Theorem importCSVWeb_replaces (randomUUID : nat -> string) (text : string)
    (st : state) (h : string) (rows : list string) :
  csv_lines text = h :: rows ->
  let after := events (run st (importCSVWeb randomUUID text)) in
  length after = length rows
  /\ (forall (n : nat) (line : string),
        rows !! n = Some line ->
        exists e : EventItem,
          after !! n = Some e
          /\ id e = randomUUID n
          /\ forall (c : string) (i : nat),
               c ∈ header ->
               csv_cols h !! i = Some c ->
               (forall j : nat, (i < j)%nat -> csv_cols h !! j <> Some c) ->
               prop e c
               = Some (default EmptyString (map unquote (match_fields line) !! i)))
  /\ (forall st0 : state, events (run st0 (importCSVWeb randomUUID text)) = after)
  /\ (fresh randomUUID (length rows) (map id (events st)) ->
      (forall e' e : EventItem, In e' after -> In e (events st) -> id e' <> id e)
      /\ (forall e : EventItem, In e (events st) -> ~ In e after)).
Proof.
  intros Hlines after.
  assert (Hafter : forall st0, events (run st0 (importCSVWeb randomUUID text))
            = map asEventItem
                (imap (fun n line => row_object (csv_cols h) (randomUUID n) line) rows)).
  { intros st0. unfold importCSVWeb.
    now rewrite (parseCSV_lines _ _ _ _ Hlines). }
  unfold after. rewrite Hafter. clear after.
  assert (Hids : forall e', In e' (map asEventItem
                (imap (fun n line => row_object (csv_cols h) (randomUUID n) line) rows)) ->
             exists n, (n < length rows)%nat /\ id e' = randomUUID n).
  { intros e' (obj & <- & Hobj)%in_map_iff.
    apply list_elem_of_In, list_elem_of_lookup in Hobj as [n Hn].
    rewrite list_lookup_imap in Hn.
    destruct (rows !! n) as [line|] eqn:E; [| discriminate].
    injection Hn as <-. exists n. split; [| apply id_asEventItem_row].
    now apply lookup_lt_Some in E. }
  split; [| split; [| split]].
  - now rewrite length_map, length_imap.
  - intros n line Hn.
    exists (asEventItem (row_object (csv_cols h) (randomUUID n) line)).
    split; [| split].
    + now rewrite lookup_map, list_lookup_imap, Hn.
    + apply id_asEventItem_row.
    + intros c i Hc Hi Hlast. apply prop_asEventItem; [assumption |].
      unfold row_object. rewrite lookup_insert_ne.
      * now rewrite (assign_cols_lookup _ 0 _ _ c i Hi Hlast).
      * intros <-. now apply id_not_in_header.
  - intros st0. apply Hafter.
  - intros Hfresh.
    assert (Hne : forall e' e,
              In e' (map asEventItem
                (imap (fun n line => row_object (csv_cols h) (randomUUID n) line) rows)) ->
              In e (events st) -> id e' <> id e).
    { intros e' e (n & Hn & He')%Hids He Heq.
      destruct (Hfresh n Hn) as [Hnot _]. apply Hnot.
      rewrite <- He', Heq. apply list_elem_of_In, in_map. exact He. }
    split; [exact Hne |].
    intros e He Hin. now apply (Hne e e Hin He).
Qed.

Lemma importCSVWeb_replaces_witness :
  length (events (run (mkState five None false) (importCSVWeb letter (csv two)))) = 2%nat.
Proof.
  refine (proj1 (importCSVWeb_replaces letter (csv two) (mkState five None false)
                   _ _ eq_refl)).
Defined.

(** C4. The import does not give one event per data row with every field
    under its header name.  The row [Swim,Friday,16:00,17:00,,#2563eb,towel]
    under the exported header has an empty category; the field pattern finds
    no item in an empty cell, so the colour lands in the category, the notes
    in the colour and the notes are empty.  The export of one event whose
    notes hold a line feed is one data row, and the import, which cuts the
    text at every line feed, makes two events of it. *)
Theorem importCSVWeb_misreads_rows :
  events (run (mkState five None false) (importCSVWeb letter spreadsheet_text))
  = [mkEvent "a" "Swim" "Friday" "16:00" "17:00" "#2563eb" "towel" (Some EmptyString)]
  /\ read_csv (csv [packing]) = Some [fields_of packing]
  /\ events (run (mkState five None false) (importCSVWeb letter (csv [packing])))
     = [mkEvent "a" "Swim" "Friday" "16:00" "17:00" "Sport" defaultAccent
                (Some "towel");
        mkEvent "b" "goggles" EmptyString EmptyString EmptyString EmptyString
                EmptyString (Some EmptyString)].
Proof. repeat split; vm_compute; reflexivity. Qed.

(** ** Loader *)

(** C8. For each persisted key the loader never throws: it returns the
    parsed value when a non-empty text is stored and parses, and the
    key's default when nothing is stored, when the stored text does not
    parse, or when the storage fails. *)
Theorem getLS_spec (JSON_parse : string -> completion json)
    (getItem : string -> completion (option string))
    (key : string) (fallback : json) :
  In (key, fallback) persisted ->
  let loaded := getLS JSON_parse getItem key fallback in
  In loaded (hydrate JSON_parse getItem)
  /\ (exists v : json, loaded = Return v)
  /\ (forall (raw : string) (v : json),
        getItem key = Return (Some raw) -> raw <> EmptyString ->
        JSON_parse raw = Return v -> loaded = Return v)
  /\ (getItem key = Return None -> loaded = Return fallback)
  /\ (forall (raw err : string),
        getItem key = Return (Some raw) -> JSON_parse raw = Throw err ->
        loaded = Return fallback)
  /\ (forall err : string, getItem key = Throw err -> loaded = Return fallback).
Proof.
  intros Hin loaded. subst loaded. unfold getLS, hydrate.
  split.
  { apply in_map_iff. exists (key, fallback). split; [reflexivity | exact Hin]. }
  split.
  { destruct (getItem key) as [[raw|]|err]; cbn; eauto.
    destruct (JS.truthy raw); cbn; eauto.
    destruct (JSON_parse raw); cbn; eauto. }
  repeat split.
  - intros raw v -> Hraw Hv. cbn. apply truthy_iff in Hraw. now rewrite Hraw, Hv.
  - now intros ->.
  - intros raw err -> Herr. cbn. rewrite Herr. now destruct (JS.truthy raw).
  - now intros err ->.
Qed.

Lemma getLS_spec_witness :
  getLS (fun _ => Throw "SyntaxError") (fun _ => Return (Some "[{"))
        "kwp:events" (JArr [])
  = Return (JArr []).
Proof.
  refine (proj1 (proj2 (proj2 (proj2 (proj2
    (getLS_spec (fun _ => Throw "SyntaxError") (fun _ => Return (Some "[{"))
                "kwp:events" (JArr []) _))))) "[{" "SyntaxError" eq_refl eq_refl).
  do 4 right. left. reflexivity.
Defined.

(** ** CSV round trip *)

(** *** The store comes back when no field holds a quote or a line feed *)

Lemma append_cons d (s t : string) : (String d s ++ t)%string = String d (s ++ t).
Proof. reflexivity. Qed.

Lemma append_nil_l (t : string) : (EmptyString ++ t)%string = t.
Proof. reflexivity. Qed.

Lemma append_nil_r (s : string) : (s ++ EmptyString)%string = s.
Proof. induction s as [|d s IH]; [reflexivity | now rewrite append_cons, IH]. Qed.

Lemma append_assoc (a b c : string) : ((a ++ b) ++ c = a ++ (b ++ c))%string.
Proof. induction a as [|d a IH]; [reflexivity | now rewrite !append_cons, IH]. Qed.

Lemma has_app c a b : has c (a ++ b)%string = has c a || has c b.
Proof.
  induction a as [|d a IH]; [reflexivity |].
  rewrite append_cons. cbn. now rewrite IH, orb_assoc.
Qed.

Lemma replaceAll_none c by_ s : has c s = false -> JS.replaceAll c by_ s = s.
Proof.
  induction s as [|d s IH]; cbn; [reflexivity |].
  intros [Hd Hs]%orb_false_iff. rewrite Hd. now rewrite IH.
Qed.

Lemma cell_plain v :
  has JS.quote v = false -> cell v = String JS.quote (v ++ str JS.quote).
Proof. intros H. unfold cell. now rewrite replaceAll_none. Qed.

Lemma unquote_cell v : has JS.quote v = false -> unquote (cell v) = v.
Proof.
  intros H. rewrite cell_plain by assumption. unfold unquote.
  cbn [JS.replaceAll]. rewrite Ascii.eqb_refl, append_nil_l.
  induction v as [|d v IH]; [reflexivity |].
  cbn in H. apply orb_false_iff in H as [Hd Hv].
  rewrite append_cons. cbn [JS.replaceAll]. rewrite Hd. now rewrite IH.
Qed.

Lemma until_quote_app v rest :
  has JS.quote v = false ->
  until_quote (v ++ String JS.quote rest) = Some (v ++ str JS.quote)%string.
Proof.
  induction v as [|d v IH]; [reflexivity |].
  cbn [has]. intros [Hd Hv]%orb_false_iff.
  rewrite !append_cons. cbn [until_quote]. rewrite Hd, IH by assumption. reflexivity.
Qed.

Lemma match_here_cell v rest :
  has JS.quote v = false -> match_here (cell v ++ rest) = Some (cell v).
Proof.
  intros H. rewrite cell_plain by assumption.
  rewrite append_cons. unfold match_here, quoted_here.
  rewrite Ascii.eqb_refl, append_assoc.
  change (str JS.quote ++ rest)%string with (String JS.quote rest).
  now rewrite until_quote_app.
Qed.

Lemma match_from_skip m rest :
  match_from (String.length m) (m ++ rest) = match_from 0 rest.
Proof.
  induction m as [|d m IH]; [reflexivity |].
  rewrite append_cons. exact IH.
Qed.

Lemma match_from_cell v rest :
  has JS.quote v = false ->
  match_from 0 (cell v ++ rest) = cell v :: match_from 0 rest.
Proof.
  intros H. pose proof (match_here_cell v rest H) as Hm.
  rewrite cell_plain in * by assumption.
  rewrite append_cons in *. cbn [match_from]. rewrite Hm.
  f_equal. rewrite <- (match_from_skip (v ++ str JS.quote) rest).
  f_equal. cbn [String.length]. lia.
Qed.

Lemma match_fields_row vs :
  Forall (fun v => has JS.quote v = false) vs ->
  match_fields (JS.join "," (map cell vs)) = map cell vs.
Proof.
  unfold match_fields. induction 1 as [|v vs Hv Hvs IH]; [reflexivity |].
  destruct vs as [|w vs].
  - cbn [map JS.join]. rewrite <- (append_nil_r (cell v)) at 1.
    now rewrite match_from_cell.
  - change (JS.join "," (map cell (v :: w :: vs)))
      with (cell v ++ String JS.comma (JS.join "," (map cell (w :: vs))))%string.
    rewrite match_from_cell by assumption.
    cbn [map]. f_equal. exact IH.
Qed.

Lemma items_row e :
  Forall plain (fields_of e) ->
  map unquote (match_fields (row_line e)) = fields_of e.
Proof.
  intros H. unfold row_line. rewrite match_fields_row.
  - induction H as [|v vs [Hv _] _ IH]; [reflexivity |].
    cbn [map]. now rewrite unquote_cell, IH.
  - eapply Forall_impl; [exact H |]. now intros v [Hv _].
Qed.

Lemma whole_line_head c s :
  whole_line (String c s) = true ->
  Ascii.eqb c JS.LF = false
  /\ ((s = EmptyString /\ Ascii.eqb c JS.CR = false)
      \/ (whole_line s = true /\ JS.starts_with JS.LF s = false)).
Proof.
  destruct s as [|d s].
  - cbn. intros [H1 H2]%andb_true_iff.
    apply negb_true_iff in H1, H2. auto.
  - cbn [whole_line]. intros [H1 H2]%andb_true_iff.
    apply negb_true_iff in H1. split; [assumption |]. right.
    split; [assumption |].
    destruct s as [|d' s]; cbn in H2; apply andb_true_iff in H2 as [H2 _];
      now apply negb_true_iff in H2.
Qed.

Lemma split_lines_whole s :
  whole_line s = true -> JS.split_lines s = [s].
Proof.
  induction s as [|c s IH]; [discriminate |].
  intros H. destruct (whole_line_head c s H) as (H1 & [[-> H2] | [H2 H3]]).
  - cbn. now rewrite H1, H2.
  - cbn [JS.split_lines]. now rewrite H1, H3, andb_false_r, IH.
Qed.

Lemma split_lines_first s rest :
  whole_line s = true ->
  JS.split_lines (s ++ String JS.LF rest) = s :: JS.split_lines rest.
Proof.
  induction s as [|c s IH]; [discriminate |].
  intros H. destruct (whole_line_head c s H) as (H1 & [[-> H2] | [H2 H3]]).
  - rewrite append_cons, append_nil_l. cbn [JS.split_lines].
    rewrite H1, H2. cbn [andb]. now rewrite Ascii.eqb_refl.
  - rewrite append_cons. cbn [JS.split_lines]. rewrite H1.
    replace (JS.starts_with JS.LF (s ++ String JS.LF rest))
      with (JS.starts_with JS.LF s).
    + now rewrite H3, andb_false_r, IH.
    + destruct s; [discriminate | reflexivity].
Qed.

Lemma split_lines_join l ls :
  Forall (fun s => whole_line s = true) (l :: ls) ->
  JS.split_lines (JS.join (str JS.LF) (l :: ls)) = l :: ls.
Proof.
  revert l. induction ls as [|l' ls IH]; intros l H.
  - apply split_lines_whole. now apply Forall_inv in H.
  - change (JS.join (str JS.LF) (l :: l' :: ls))
      with (l ++ String JS.LF (JS.join (str JS.LF) (l' :: ls)))%string.
    rewrite split_lines_first by now apply Forall_inv in H.
    f_equal. apply IH. now apply Forall_inv_tail in H.
Qed.

Lemma filter_truthy_whole ls :
  Forall (fun s => whole_line s = true) ls -> List.filter JS.truthy ls = ls.
Proof.
  induction 1 as [|s ls Hs _ IH]; [reflexivity |].
  cbn. destruct s; [discriminate |]. cbn. now rewrite IH.
Qed.

Lemma whole_line_app a b :
  has JS.LF a = false -> whole_line b = true -> whole_line (a ++ b) = true.
Proof.
  induction a as [|c a IH]; [auto |].
  cbn [has]. intros [Hc Ha]%orb_false_iff Hb. rewrite append_cons.
  specialize (IH Ha Hb). cbn [whole_line]. rewrite Hc, IH.
  destruct (a ++ b)%string; [discriminate | reflexivity].
Qed.

Lemma has_LF_cell v : has JS.LF v = false -> has JS.LF (cell v) = false.
Proof.
  intros H. unfold cell. rewrite !has_app.
  assert (Hr : has JS.LF (JS.replaceAll JS.quote (str JS.quote ++ str JS.quote) v) = false).
  { induction v as [|d v IH]; [reflexivity |].
    cbn in H. apply orb_false_iff in H as [Hd Hv].
    cbn [JS.replaceAll]. destruct (Ascii.eqb d JS.quote).
    - rewrite has_app. now rewrite IH.
    - cbn. now rewrite Hd, IH. }
  now rewrite Hr.
Qed.

Lemma whole_line_cell v : has JS.LF v = false -> whole_line (cell v) = true.
Proof.
  intros H. unfold cell. rewrite <- append_assoc.
  apply whole_line_app; [| reflexivity].
  apply has_LF_cell in H. unfold cell in H.
  rewrite <- append_assoc, has_app in H. now apply orb_false_iff in H as [H _].
Qed.

Lemma whole_line_row v vs :
  Forall (fun v => has JS.LF v = false) (v :: vs) ->
  whole_line (JS.join "," (map cell (v :: vs))) = true.
Proof.
  revert v. induction vs as [|w vs IH]; intros v H.
  - apply whole_line_cell. now apply Forall_inv in H.
  - change (JS.join "," (map cell (v :: w :: vs)))
      with (cell v ++ String JS.comma (JS.join "," (map cell (w :: vs))))%string.
    apply whole_line_app.
    + apply has_LF_cell. now apply Forall_inv in H.
    + change (String JS.comma ?s) with (str JS.comma ++ s)%string.
      apply whole_line_app; [reflexivity |].
      apply IH. now apply Forall_inv_tail in H.
Qed.

Lemma csv_lines_csv evs :
  Forall plain_event evs ->
  csv_lines (csv evs) = JS.join "," header :: map row_line evs.
Proof.
  intros H.
  assert (Hw : Forall (fun s => whole_line s = true)
                 (JS.join "," header :: map row_line evs)).
  { constructor; [reflexivity |]. apply Forall_map.
    eapply Forall_impl; [exact H |]. intros e He. cbn beta.
    apply (whole_line_row (default EmptyString (prop e "title"))
             (map (fun h => default EmptyString (prop e h)) (tail header))).
    eapply Forall_impl; [exact He |]. now intros v [_ Hv]. }
  unfold csv_lines, csv, csv_rows. rewrite map_map.
  change (map (fun e => JS.join "," (map cell (map (fun h => default EmptyString (prop e h)) header))) evs)
    with (map row_line evs).
  rewrite split_lines_join by assumption.
  now apply filter_truthy_whole.
Qed.

Lemma csv_cols_header : csv_cols (JS.join "," header) = header.
Proof. vm_compute. reflexivity. Qed.

Lemma fields_of_row uuid e :
  Forall plain (fields_of e) ->
  fields_of (asEventItem (row_object header uuid (row_line e))) = fields_of e.
Proof.
  intros H. unfold row_object. rewrite (items_row e H).
  unfold fields_of at 2 3. cbn [map header].
  vm_compute. reflexivity.
Qed.

(** Export followed by import gives back every field of every event, in
    store order, under the generated ids, when no field holds a double
    quote or a line feed. *)
Lemma csv_round_trip_plain (randomUUID : nat -> string) (st : state) :
  Forall plain_event (events st) ->
  let after := events (run st (importCSVWeb randomUUID (csv (events st)))) in
  map fields_of after = map fields_of (events st)
  /\ map id after = map randomUUID (seq 0 (length (events st))).
Proof.
  intros H after. subst after. unfold importCSVWeb.
  rewrite (parseCSV_lines _ _ _ _ (csv_lines_csv _ H)), csv_cols_header.
  cbn [run foldl apply_effect events]. split.
  - apply list_eq. intros i.
    rewrite !lookup_map, list_lookup_imap, lookup_map.
    destruct (events st !! i) as [e|] eqn:E; [| reflexivity].
    cbn [fmap option_fmap option_map]. f_equal. apply fields_of_row.
    eapply Forall_lookup_1 in H; [exact H | exact E].
  - apply list_eq. intros i.
    rewrite !lookup_map, list_lookup_imap, lookup_map.
    destruct (events st !! i) as [e|] eqn:E; cbn.
    + rewrite lookup_insert_eq. cbn. apply lookup_lt_Some in E.
      now rewrite lookup_seq_lt.
    + apply lookup_ge_None in E. now rewrite lookup_seq_ge.
Qed.

(** C2. Export followed by import does not give the store back when a
    field holds a double quote or a line break.  The export doubles the
    quote and leaves the line break inside the quoted cell; the import cuts
    the text at every line break and the cells at every quote.  A title
    [Read, quote, Matilda, quote] comes back as title [Read], weekday
    [Matilda], an empty start, and every later field one column late; a
    two-line note turns one event into two. *)
Theorem csv_round_trip_breaks :
  events (run (mkState [read_aloud] None false)
              (importCSVWeb letter (csv [read_aloud])))
  = [mkEvent "a" "Read " "Matilda" EmptyString "Monday" "09:00" "10:00"
             (Some "School")]
  /\ events (run (mkState [packing] None false)
                 (importCSVWeb letter (csv [packing])))
     = [mkEvent "a" "Swim" "Friday" "16:00" "17:00" "Sport" defaultAccent
                (Some "towel");
        mkEvent "b" "goggles" EmptyString EmptyString EmptyString EmptyString
                EmptyString (Some EmptyString)].
Proof. split; vm_compute; reflexivity. Qed.

(** * Further properties of the code *)

(** ** Row labels *)

Lemma hh_range (z : Z) :
  Z.rem (Z.rem z 24 + 24) 24 = (z mod 24)%Z /\ (0 <= z mod 24 < 24)%Z.
Proof. Z.to_euclidean_division_equations; lia. Qed.

(** Below 24 the padded numeral of an hour is two digits that denote it. *)
Lemma padStart_hour (k : Z) :
  (0 <= k < 24)%Z ->
  exists a b : ascii,
    padStart 2 "0" (String_of_int k) = String a (String b EmptyString)
    /\ JS.is_digit a = true /\ JS.is_digit b = true /\ two_digits a b = k.
Proof.
  intros Hk.
  assert (Hn : exists n : nat, (n < 24)%nat /\ k = Z.of_nat n)
    by (exists (Z.to_nat k); lia).
  destruct Hn as (n & Hn & ->). clear Hk.
  do 24 (destruct n as [|n];
         [do 2 eexists; split; [vm_compute; reflexivity | now vm_compute] |]).
  lia.
Qed.

Lemma formatHour_shape q :
  exists a b : ascii,
    formatHour (JS.Num q) = String a (String b (mins_of q))
    /\ JS.is_digit a = true /\ JS.is_digit b = true
    /\ two_digits a b = (Qfloor q mod 24)%Z.
Proof.
  destruct (hh_range (Qfloor q)) as [Hhh Hr].
  destruct (padStart_hour _ Hr) as (a & b & Hpad & Ha & Hb & Hab).
  exists a, b. repeat split; try assumption.
  unfold formatHour. cbv zeta. rewrite Hhh, Hpad. reflexivity.
Qed.

Lemma mins_of_cases q :
  ((inject_Z (Qfloor q) == q)%Q /\ mins_of q = ":00")
  \/ ((inject_Z (Qfloor q) < q)%Q /\ mins_of q = ":30").
Proof.
  unfold mins_of, JS.gtb, JS.ltb, JS.sub, JS.of_Z.
  destruct (JS.Qltb (inject_Z 0) (q - inject_Z (Qfloor q))) eqn:E.
  - right. split; [| reflexivity]. apply Qltb_iff in E.
    apply (Qplus_lt_l _ _ (- inject_Z (Qfloor q))). 
    now rewrite Qplus_opp_r.
  - left. split; [| reflexivity].
    apply Qle_antisym; [apply Qfloor_le |].
    apply Qnot_lt_le. intros H. apply not_true_iff_false in E. apply E.
    apply Qltb_iff. apply (Qplus_lt_l _ _ (- inject_Z (Qfloor q))) in H.
    now rewrite Qplus_opp_r in H.
Qed.

Lemma formatHour_fields (q : Q) :
  is_HHMM (formatHour (JS.Num q)) = true
  /\ hour (formatHour (JS.Num q)) = (Qfloor q mod 24)%Z
  /\ (0 <= hour (formatHour (JS.Num q)) < 24)%Z
  /\ ((inject_Z (Qfloor q) == q)%Q -> minute (formatHour (JS.Num q)) = 0%Z)
  /\ ((inject_Z (Qfloor q) < q)%Q -> minute (formatHour (JS.Num q)) = 30%Z).
Proof.
  destruct (formatHour_shape q) as (a & b & -> & Ha & Hb & Hab).
  destruct (hh_range (Qfloor q)) as [_ Hr].
  destruct (mins_of_cases q) as [[Hq ->] | [Hq ->]]; cbn [is_HHMM hour minute];
    rewrite Ha, Hb, Hab; repeat split; try reflexivity; try lia.
  - intros H. rewrite Hq in H. now apply Qlt_irrefl in H.
  - intros H. rewrite H in Hq. now apply Qlt_irrefl in Hq.
Qed.

(** [formatHour] of a finite number always is a well-formed time: its
    hour is the floor of the number modulo 24, between 0 and 23 also for
    negative numbers, and its minute is 0 for a whole number and 30 for any
    other.  Of [NaN] it is [NaN:00]; so it is in the code of the two
    infinities, which are not among the numbers of this development. *)
Theorem formatHour_spec (q : Q) :
  (is_HHMM (formatHour (JS.Num q)) = true
   /\ hour (formatHour (JS.Num q)) = (Qfloor q mod 24)%Z
   /\ (0 <= hour (formatHour (JS.Num q)) < 24)%Z
   /\ ((inject_Z (Qfloor q) == q)%Q -> minute (formatHour (JS.Num q)) = 0%Z)
   /\ ((inject_Z (Qfloor q) < q)%Q -> minute (formatHour (JS.Num q)) = 30%Z))
  /\ formatHour JS.NaN = "NaN:00".
Proof. split; [exact (formatHour_fields q) | reflexivity]. Qed.

Lemma half_hour_cases q :
  on_half_hour q ->
  (q == inject_Z (Qfloor q))%Q \/ (q == inject_Z (Qfloor q) + (1 # 2))%Q.
Proof.
  intros [n Hn]. rewrite Hn. unfold Qfloor, Qeq, Qplus, inject_Z. cbn.
  Z.to_euclidean_division_equations. lia.
Qed.

Lemma timeToRow_label (q : Q) :
  (0 <= q)%Q -> (q < 24)%Q -> on_half_hour q ->
  JS.same (timeToRow (formatHour (JS.Num q))) (JS.Num (q - 7)).
Proof.
  intros H0 H24 Hhalf.
  destruct (formatHour_fields q) as (Hwf & Hh & _ & Hm0 & Hm30).
  rewrite (timeToRow_HHMM _ Hwf). unfold row. rewrite Hh. cbn [JS.same].
  assert (Hfl : (0 <= Qfloor q < 24)%Z).
  { split.
    - change 0%Z with (Qfloor 0). now apply Qfloor_resp_le.
    - apply Z.lt_nge. intros Hge.
      apply (Qlt_irrefl q). eapply Qlt_le_trans; [exact H24 |].
      eapply Qle_trans; [| apply Qfloor_le].
      change 24%Q with (inject_Z 24). rewrite <- Zle_Qle. lia. }
  rewrite Z.mod_small by exact Hfl.
  destruct (half_hour_cases q Hhalf) as [Hq | Hq].
  - rewrite Hm0 by now symmetry. cbn. rewrite Hq at 2. ring.
  - rewrite Hm30.
    + cbn. rewrite Hq at 2. ring.
    + rewrite Hq at 2. rewrite <- (Qplus_0_r (inject_Z (Qfloor q))) at 1.
      apply Qplus_lt_r. reflexivity.
Qed.

(** The half-hour labels come back from [timeToRow] as their distance from
    seven o'clock: for a multiple [q] of one half from 0 up to 24,
    [timeToRow(formatHour(q))] is [q - 7]. *)
Theorem timeToRow_formatHour (q : Q) :
  (0 <= q)%Q -> (q < 24)%Q -> on_half_hour q ->
  JS.same (timeToRow (formatHour (JS.Num q))) (JS.Num (q - 7)).
Proof. exact (timeToRow_label q). Qed.

Lemma timeToRow_formatHour_witness :
  JS.same (timeToRow (formatHour (JS.Num (19 # 2)))) (JS.Num ((19 # 2) - 7)).
Proof.
  apply (timeToRow_formatHour (19 # 2)).
  - discriminate.
  - reflexivity.
  - exists 19%Z. reflexivity.
Defined.

Lemma rowLabels_lookup denseHours i h :
  rowLabels denseHours !! i = Some h ->
  exists q : Q,
    h = JS.Num q
    /\ (q == 7 + inject_Z (Z.of_nat i) * (if denseHours then 1 # 2 else 1))%Q
    /\ (i < (if denseHours then 30 else 15))%nat.
Proof.
  unfold rowLabels, HOURS. destruct denseHours; rewrite lookup_map;
    destruct (seq 0 _ !! i) as [j|] eqn:E; try discriminate;
    apply lookup_seq in E as [-> Hi]; cbn [plus]; intros [= <-];
    eexists; (split; [reflexivity |]); (split; [| exact Hi]); cbn; ring.
Qed.

(** An event that starts at the time a row label shows is drawn at the
    height of that label, in hourly and in half-hourly mode: label number
    [i] and the event are both [i] row heights below the top. *)
Theorem label_aligns_with_event (denseHours : bool) (i : nat) (h : JS.number)
    (e : EventItem) :
  rowLabels denseHours !! i = Some h ->
  start e = formatHour h ->
  JS.same (top denseHours e) (JS.mul (JS.of_Z (Z.of_nat i)) rowHeight).
Proof.
  intros Hl Hs.
  destruct (rowLabels_lookup _ _ _ Hl) as (q & -> & Hq & Hi).
  assert (Hrow : JS.same (timeToRow (start e)) (JS.Num (q - 7))).
  { rewrite Hs. apply timeToRow_label.
    - rewrite Hq. destruct denseHours; unfold Qle, Qplus, Qmult, inject_Z; cbn; lia.
    - rewrite Hq. destruct denseHours; unfold Qlt, Qplus, Qmult, inject_Z; cbn; lia.
    - destruct denseHours.
      + exists (14 + Z.of_nat i)%Z. rewrite Hq.
        unfold Qeq, Qplus, Qmult, inject_Z. cbn. lia.
      + exists (2 * (7 + Z.of_nat i))%Z. rewrite Hq.
        unfold Qeq, Qplus, Qmult, inject_Z. cbn. lia. }
  unfold top. destruct (timeToRow (start e)) as [|r]; [contradiction |].
  cbn in Hrow. unfold rowHeight, density, JS.of_Z. cbn [JS.mul JS.same].
  rewrite Hrow, Hq. destruct denseHours; cbn; ring.
Qed.

Lemma label_aligns_with_event_witness :
  JS.same (top true (sample "1" "Piano" "Monday" "08:30" "09:00"))
          (JS.mul (JS.of_Z (Z.of_nat 3)) rowHeight).
Proof.
  apply (label_aligns_with_event true 3
           (JS.add (JS.of_Z 7) (JS.mul (JS.of_Z 3) (JS.Num (1 # 2))))
           (sample "1" "Piano" "Monday" "08:30" "09:00"));
    reflexivity.
Defined.

(** *** Order of times and order of rows *)

Lemma digit_value_code c :
  JS.is_digit c = true ->
  JS.digit_value c = (Z.of_nat (nat_of_ascii c) - 48)%Z
  /\ (48 <= nat_of_ascii c <= 57)%nat.
Proof.
  unfold JS.is_digit, JS.digit_value, JS.code.
  intros [H1 H2]%andb_true_iff. apply Nat.leb_le in H1, H2. auto.
Qed.

(** Between well-formed times the order of the strings is the order of
    hour and minute. *)
Lemma lt_HHMM s t :
  is_HHMM s = true -> is_HHMM t = true -> String_as_OT.lt s t ->
  (hour s < hour t)%Z \/ (hour s = hour t /\ minute s < minute t)%Z.
Proof.
  destruct s as [|a [|b [|c [|d [|e [|]]]]]]; try discriminate.
  destruct t as [|a' [|b' [|c' [|d' [|e' [|]]]]]]; try discriminate.
  cbn [is_HHMM hour minute]. rewrite !andb_true_iff.
  intros [[[[Ha Hb] Hc] Hd] He] [[[[Ha' Hb'] Hc'] Hd'] He'] Hlt.
  apply Ascii.eqb_eq in Hc, Hc'. subst c c'. unfold two_digits.
  destruct (digit_value_code a Ha) as [-> ?], (digit_value_code b Hb) as [-> ?],
           (digit_value_code d Hd) as [-> ?], (digit_value_code e He) as [-> ?],
           (digit_value_code a' Ha') as [-> ?], (digit_value_code b' Hb') as [-> ?],
           (digit_value_code d' Hd') as [-> ?], (digit_value_code e' He') as [-> ?].
  unfold String_as_OT.lt in Hlt.
  inversion Hlt as [| ? ? ? K1 | ? ? ? ? K1]; subst; [| lia].
  inversion K1 as [| ? ? ? K2 | ? ? ? ? K2]; subst; [| lia].
  inversion K2 as [| ? ? ? K3 | ? ? ? ? K3]; subst; [| lia].
  inversion K3 as [| ? ? ? K4 | ? ? ? ? K4]; subst; [| lia].
  inversion K4 as [| ? ? ? K5 | ? ? ? ? K5]; subst; [| lia].
  inversion K5.
Qed.

Lemma row_mono s t :
  is_HHMM s = true -> is_HHMM t = true -> String_as_OT.lt s t ->
  (row s <= row t)%Q.
Proof.
  intros Hs Ht Hlt. unfold row.
  destruct (lt_HHMM s t Hs Ht Hlt) as [H | [H1 H2]].
  - assert (Hm : forall m : Z, (0 <= (if (30 <=? m)%Z then 1 # 2 else 0))%Q
                               /\ ((if (30 <=? m)%Z then 1 # 2 else 0) <= 1 # 2)%Q).
    { intros m. destruct (30 <=? m)%Z; split; discriminate. }
    destruct (Hm (minute s)) as [_ Hs2], (Hm (minute t)) as [Ht1 _].
    apply Qle_trans with (inject_Z (hour s) - 7 + (1 # 2))%Q.
    + apply Qplus_le_r. exact Hs2.
    + apply Qle_trans with (inject_Z (hour t) - 7 + 0)%Q.
      * unfold Qle, Qplus, Qminus, Qopp, inject_Z. cbn. lia.
      * apply Qplus_le_r. exact Ht1.
  - rewrite H1. apply Qplus_le_r.
    destruct (30 <=? minute s)%Z eqn:E1, (30 <=? minute t)%Z eqn:E2;
      try discriminate; try apply Qle_refl.
    apply Z.leb_le in E1. apply Z.leb_gt in E2. lia.
Qed.

Lemma row_nonneg_iff s : (0 <= row s)%Q <-> (7 <= hour s)%Z.
Proof.
  unfold row. destruct (30 <=? minute s)%Z;
    unfold Qle, Qplus, Qminus, Qopp, inject_Z; cbn; lia.
Qed.

Lemma row_le_15_iff s :
  (row s <= 15)%Q <-> (hour s < 22 \/ (hour s = 22 /\ minute s < 30))%Z.
Proof.
  unfold row. destruct (30 <=? minute s)%Z eqn:E;
    [apply Z.leb_le in E | apply Z.leb_gt in E];
    unfold Qle, Qplus, Qminus, Qopp, inject_Z; cbn; lia.
Qed.

(** Where the block of a saved event with well-formed times lies.  Its
    height is never negative.  Its top is at or below the top of the grid
    exactly when the event starts at 07:00 or later, and above it (a
    negative offset: nothing is clipped) when it starts earlier.  Its bottom
    is at or above the bottom of the grid, whose height is the number of row
    labels times the row height, exactly when the end has a row of at most
    15, that is when the event ends before 22:30; so the block lies within
    the grid exactly when both hold. *)
Theorem block_in_grid (denseHours : bool) (e : EventItem) :
  is_HHMM (start e) = true -> is_HHMM (end_ e) = true -> valid e ->
  exists t h : Q,
    top denseHours e = JS.Num t /\ height denseHours e = JS.Num h
    /\ (0 <= h)%Q
    /\ ((0 <= t)%Q <-> (7 <= hour (start e))%Z)
    /\ ((t < 0)%Q <-> (hour (start e) < 7)%Z)
    /\ ((t + h <= inject_Z (Z.of_nat (length (rowLabels denseHours))) * 48)%Q
        <-> (hour (end_ e) < 22 \/ (hour (end_ e) = 22 /\ minute (end_ e) < 30))%Z)
    /\ ((0 <= t /\ t + h <= inject_Z (Z.of_nat (length (rowLabels denseHours))) * 48)%Q
        <-> (7 <= hour (start e))%Z
            /\ (hour (end_ e) < 22 \/ (hour (end_ e) = 22 /\ minute (end_ e) < 30))%Z).
Proof.
  intros Hs He [_ Hlt].
  pose proof (row_mono _ _ Hs He Hlt) as Hrow.
  unfold top, height. rewrite !timeToRow_HHMM by assumption.
  exists (row (start e) * 48 * (if denseHours then 2 else 1))%Q,
         ((row (end_ e) - row (start e)) * 48 * (if denseHours then 2 else 1))%Q.
  set (c := (48 * (if denseHours then 2 else 1))%Q).
  assert (Hc : (0 < c)%Q) by (unfold c; now destruct denseHours).
  assert (Htop : ((0 <= row (start e) * 48 * (if denseHours then 2 else 1))%Q
                  <-> (7 <= hour (start e))%Z)).
  { rewrite <- row_nonneg_iff.
    setoid_replace (row (start e) * 48 * (if denseHours then 2 else 1))%Q
      with (row (start e) * c)%Q using relation Qeq by (unfold c; ring).
    setoid_replace 0%Q with (0 * c)%Q using relation Qeq at 1 by ring.
    apply Qmult_le_r. exact Hc. }
  assert (Hbot : ((row (start e) * 48 * (if denseHours then 2 else 1)
                   + (row (end_ e) - row (start e)) * 48 * (if denseHours then 2 else 1)
                   <= inject_Z (Z.of_nat (length (rowLabels denseHours))) * 48)%Q
                  <-> (hour (end_ e) < 22 \/ (hour (end_ e) = 22 /\ minute (end_ e) < 30))%Z)).
  { rewrite <- row_le_15_iff.
    setoid_replace (row (start e) * 48 * (if denseHours then 2 else 1)
                    + (row (end_ e) - row (start e)) * 48 * (if denseHours then 2 else 1))%Q
      with (row (end_ e) * c)%Q using relation Qeq by (unfold c; ring).
    setoid_replace (inject_Z (Z.of_nat (length (rowLabels denseHours))) * 48)%Q
      with (15 * c)%Q using relation Qeq
      by (unfold c; destruct denseHours; reflexivity).
    apply Qmult_le_r. exact Hc. }
  split; [now destruct denseHours |]. split; [now destruct denseHours |].
  split; [| split; [| split; [| split]]].
  - apply Qmult_le_0_compat; [apply Qmult_le_0_compat |].
    + unfold Qminus. rewrite <- (Qplus_opp_r (row (start e))).
      apply Qplus_le_l. exact Hrow.
    + discriminate.
    + destruct denseHours; discriminate.
  - exact Htop.
  - split.
    + intros Ht. apply Z.lt_nge. intros H7. apply Htop in H7.
      now apply Qle_not_lt in H7.
    + intros H7. apply Qnot_le_lt. intros Ht. apply Htop in Ht. lia.
  - exact Hbot.
  - now rewrite Htop, Hbot.
Qed.

Lemma block_in_grid_witness :
  exists t h : Q,
    top false (sample "1" "Film" "Monday" "22:30" "23:00") = JS.Num t
    /\ height false (sample "1" "Film" "Monday" "22:30" "23:00") = JS.Num h
    /\ (0 <= h)%Q
    /\ ((0 <= t)%Q <-> (7 <= hour "22:30")%Z)
    /\ ((t < 0)%Q <-> (hour "22:30" < 7)%Z)
    /\ ((t + h <= inject_Z (Z.of_nat (length (rowLabels false))) * 48)%Q
        <-> (hour "23:00" < 22 \/ (hour "23:00" = 22 /\ minute "23:00" < 30))%Z)
    /\ ((0 <= t /\ t + h <= inject_Z (Z.of_nat (length (rowLabels false))) * 48)%Q
        <-> (7 <= hour "22:30")%Z
            /\ (hour "23:00" < 22 \/ (hour "23:00" = 22 /\ minute "23:00" < 30))%Z).
Proof.
  apply (block_in_grid false (sample "1" "Film" "Monday" "22:30" "23:00")).
  - reflexivity.
  - reflexivity.
  - apply valid_checks. split; reflexivity.
Defined.

(** *** What the overlap test does not see *)

Lemma ltb_max_min_touch (x sa eb : JS.number) :
  JS.ltb (JS.max sa x) (JS.min x eb) = false.
Proof.
  destruct x as [|x], sa as [|sa], eb as [|eb]; try reflexivity.
  apply not_true_iff_false. rewrite ltb_max_min.
  intros H. apply Q.max_lub_lt_iff in H as [_ H].
  apply Q.min_glb_lt_iff in H as [H _]. now apply Qlt_irrefl in H.
Qed.

Lemma overlaps_sym_aux (a b : EventItem) : overlaps b a = overlaps a b.
Proof.
  unfold overlaps. rewrite (String.eqb_sym (day b) (day a)).
  destruct (day a =? day b)%string; [cbn [negb] | reflexivity].
  apply ltb_max_min_sym.
Qed.

(** Two events of which one starts at the time string the other ends at
    are never reported as overlapping, whatever the strings are. *)
Theorem overlaps_back_to_back (a b : EventItem) :
  end_ a = start b -> overlaps a b = false /\ overlaps b a = false.
Proof.
  intros H.
  assert (Hab : overlaps a b = false).
  { unfold overlaps. destruct (negb (day a =? day b)%string); [reflexivity |].
    rewrite H. apply ltb_max_min_touch. }
  split; [exact Hab |]. now rewrite overlaps_sym_aux.
Qed.

Lemma overlaps_back_to_back_witness :
  overlaps (sample "1" "Math" "Monday" "09:00" "10:00")
           (sample "2" "Piano" "Monday" "10:00" "11:00") = false
  /\ overlaps (sample "2" "Piano" "Monday" "10:00" "11:00")
              (sample "1" "Math" "Monday" "09:00" "10:00") = false.
Proof.
  apply (overlaps_back_to_back (sample "1" "Math" "Monday" "09:00" "10:00")
                               (sample "2" "Piano" "Monday" "10:00" "11:00")).
  reflexivity.
Defined.

Lemma ltb_max_min_empty (sa ea : Q) (x y : JS.number) :
  (ea <= sa)%Q ->
  JS.ltb (JS.max (JS.Num sa) x) (JS.min (JS.Num ea) y) = false.
Proof.
  intros Hle. destruct x as [|x], y as [|y]; try reflexivity.
  apply not_true_iff_false. rewrite ltb_max_min.
  intros H. apply Q.max_lub_lt_iff in H as [H _].
  apply Q.min_glb_lt_iff in H as [H _].
  apply (Qlt_irrefl sa). eapply Qlt_le_trans; eassumption.
Qed.

(** The overlap test works on half-hour rows: an event with well-formed
    times that starts and ends in the same half hour is never reported as
    overlapping, not even with an event at exactly the same times. *)
Theorem overlaps_within_half_hour (a b : EventItem) :
  is_HHMM (start a) = true -> is_HHMM (end_ a) = true ->
  hour (start a) = hour (end_ a) ->
  (30 <=? minute (start a))%Z = (30 <=? minute (end_ a))%Z ->
  overlaps a b = false /\ overlaps b a = false.
Proof.
  intros Hs He Hh Hm.
  assert (Hab : overlaps a b = false).
  { unfold overlaps. destruct (negb (day a =? day b)%string); [reflexivity |].
    rewrite (timeToRow_HHMM _ Hs), (timeToRow_HHMM _ He).
    apply ltb_max_min_empty. unfold row. rewrite Hh, Hm. apply Qle_refl. }
  split; [exact Hab |]. now rewrite overlaps_sym_aux.
Qed.

Lemma overlaps_within_half_hour_witness :
  overlaps (sample "1" "Snack" "Monday" "09:00" "09:20")
           (sample "2" "Call" "Monday" "09:10" "09:25") = false
  /\ overlaps (sample "2" "Call" "Monday" "09:10" "09:25")
              (sample "1" "Snack" "Monday" "09:00" "09:20") = false.
Proof.
  apply (overlaps_within_half_hour (sample "1" "Snack" "Monday" "09:00" "09:20")
                                   (sample "2" "Call" "Monday" "09:10" "09:25"));
    reflexivity.
Defined.

(** ** Day columns *)

Lemma DAYS_NoDup : NoDup DAYS.
Proof. apply (bool_decide_unpack _). vm_compute. exact I. Qed.

Lemma column_store_order d evs :
  column d evs = List.filter (fun e => String.eqb (day e) d) evs.
Proof. apply sortedEvents_keeps_day_order. Qed.

(** The column of a weekday shows the stored events of that weekday in the
    order of the store; an event whose weekday is none of the seven is in
    no column, and every other event is in exactly one. *)
Theorem columns_spec (evs : list EventItem) :
  length (columns evs) = 7%nat
  /\ (forall (i : nat) (d : string),
        DAYS !! i = Some d ->
        columns evs !! i = Some (List.filter (fun e => String.eqb (day e) d) evs))
  /\ (forall (e : EventItem) (i : nat) (col : list EventItem),
        columns evs !! i = Some col ->
        (In e col <-> In e evs /\ DAYS !! i = Some (day e)))
  /\ (forall (e : EventItem) (i j : nat) (ci cj : list EventItem),
        columns evs !! i = Some ci -> columns evs !! j = Some cj ->
        In e ci -> In e cj -> i = j).
Proof.
  assert (Hcol : forall i d, DAYS !! i = Some d ->
            columns evs !! i = Some (List.filter (fun e => String.eqb (day e) d) evs)).
  { intros i d Hd. unfold columns. rewrite lookup_map, Hd. cbn.
    now rewrite column_store_order. }
  assert (Hin : forall e i col, columns evs !! i = Some col ->
            (In e col <-> In e evs /\ DAYS !! i = Some (day e))).
  { intros e i col Hi.
    assert (Hd : exists d, DAYS !! i = Some d).
    { unfold columns in Hi. rewrite lookup_map in Hi.
      destruct (DAYS !! i) as [d|]; [eauto | discriminate]. }
    destruct Hd as [d Hd]. rewrite (Hcol i d Hd) in Hi. injection Hi as <-.
    rewrite filter_In, String.eqb_eq, Hd. split.
    - intros [H1 H2]. split; [exact H1 | now rewrite H2].
    - intros [H1 [= H2]]. split; [exact H1 | now symmetry]. }
  split; [reflexivity |]. split; [exact Hcol |]. split; [exact Hin |].
  intros e i j ci cj Hi Hj Hei Hej.
  apply (Hin e i ci Hi) in Hei as [_ Hei]. apply (Hin e j cj Hj) in Hej as [_ Hej].
  exact (proj1 (NoDup_alt DAYS) DAYS_NoDup i j (day e) Hei Hej).
Qed.

(** *** The sorted view is the stable sort by weekday *)

Lemma filter_insert_index k x l :
  List.filter (fun e => Z.eqb (day_index e) k) (JS.insert sortedEvents_cmp x l)
  = List.filter (fun e => Z.eqb (day_index e) k) (x :: l).
Proof.
  induction l as [|y l IH]; [reflexivity |].
  cbn [JS.insert]. rewrite sortedEvents_cmp_pos.
  destruct (day_index y <? day_index x)%Z eqn:E; [| reflexivity].
  apply Z.ltb_lt in E. cbn [List.filter] in *. rewrite IH.
  destruct (day_index x =? k)%Z eqn:Ex, (day_index y =? k)%Z eqn:Ey; try reflexivity.
  apply Z.eqb_eq in Ex, Ey. lia.
Qed.

(** The sorted view holds the stored events, each as often as the store,
    in the order of their weekdays in [DAYS], and events of the same weekday
    position (in particular of the same weekday) in the order of the
    store. *)
Theorem sortedEvents_stable (evs : list EventItem) :
  sortedEvents evs ≡ₚ evs
  /\ StronglySorted day_le (sortedEvents evs)
  /\ (forall k : Z,
        List.filter (fun e => Z.eqb (day_index e) k) (sortedEvents evs)
        = List.filter (fun e => Z.eqb (day_index e) k) evs).
Proof.
  split; [| split].
  - induction evs as [|x evs IH]; [reflexivity |].
    unfold sortedEvents in *. cbn [JS.sort foldr].
    fold (JS.sort sortedEvents_cmp evs). now rewrite insert_perm, IH.
  - induction evs as [|x evs IH]; [constructor |].
    unfold sortedEvents in *. cbn [JS.sort foldr].
    fold (JS.sort sortedEvents_cmp evs). now apply insert_sorted.
  - intros k. induction evs as [|x evs IH]; [reflexivity |].
    unfold sortedEvents in *. cbn [JS.sort foldr].
    fold (JS.sort sortedEvents_cmp evs).
    rewrite filter_insert_index. cbn [List.filter]. now rewrite IH.
Qed.

(** ** Event store: delete, save again, the form *)

Lemma filter_not_id_In x (evs : list EventItem) e :
  In e (List.filter (fun e => negb (same_id x e)) evs) <-> In e evs /\ id e <> x.
Proof.
  rewrite filter_In, negb_true_iff, <- not_true_iff_false, same_id_iff. tauto.
Qed.

Lemma filter_not_id_absent x (evs : list EventItem) :
  ~ stored x evs -> List.filter (fun e => negb (same_id x e)) evs = evs.
Proof.
  intros H. induction evs as [|e evs IH]; [reflexivity |].
  cbn. destruct (same_id x e) eqn:E.
  - exfalso. apply H. exists e. split; [now left | now apply same_id_iff].
  - cbn. rewrite IH; [reflexivity |].
    intros (e' & Hin & He'). apply H. exists e'. split; [now right | exact He'].
Qed.

Lemma unique_ids_same evs a b :
  unique_ids evs -> In a evs -> In b evs -> id a = id b -> a = b.
Proof.
  unfold unique_ids. intros Hu Ha Hb Hid.
  apply list_elem_of_In, list_elem_of_lookup in Ha as [i Hi], Hb as [j Hj].
  assert (i = j).
  { apply (proj1 (NoDup_alt _) Hu i j (id a)).
    - now rewrite lookup_map, Hi.
    - now rewrite lookup_map, Hj, Hid. }
  subst j. congruence.
Qed.

Lemma filter_length_unique x (evs : list EventItem) :
  unique_ids evs -> stored x evs ->
  S (length (List.filter (fun e => negb (same_id x e)) evs)) = length evs.
Proof.
  unfold unique_ids. induction evs as [|e evs IH]; intros Hu (e' & Hin & He').
  - destruct Hin.
  - cbn in Hu. apply NoDup_cons in Hu as [Hn Hu]. cbn [List.filter].
    destruct (same_id x e) eqn:E; cbn [negb length].
    + f_equal. rewrite filter_not_id_absent; [reflexivity |].
      intros (e2 & Hin2 & He2). apply Hn. apply same_id_iff in E.
      replace (id e) with (id e2) by congruence.
      apply list_elem_of_In, in_map. exact Hin2.
    + f_equal. apply IH; [exact Hu |]. exists e'. split; [| exact He'].
      destruct Hin as [-> | Hin]; [| exact Hin].
      apply same_id_iff in He'. congruence.
Qed.

(** [deleteEvent] removes the events with the given id and nothing else:
    the others stay, in their order; when no event has the id the store is
    the one before; with pairwise distinct ids exactly one event goes when
    the id is stored. *)
Theorem deleteEvent_spec (x : string) (st : state) :
  let after := events (run st (deleteEvent x st)) in
  (forall e : EventItem, In e after <-> In e (events st) /\ id e <> x)
  /\ sublist after (events st)
  /\ (~ stored x (events st) -> run st (deleteEvent x st) = st)
  /\ (unique_ids (events st) -> stored x (events st) ->
      S (length after) = length (events st))
  /\ editing (run st (deleteEvent x st)) = editing st
  /\ open (run st (deleteEvent x st)) = open st.
Proof.
  cbn. split; [| split; [| split; [| split; [| split]]]].
  - intros e. apply filter_not_id_In.
  - induction (events st) as [|e evs IH]; [constructor |].
    cbn. destruct (negb (same_id x e)); now constructor.
  - intros H. rewrite filter_not_id_absent by exact H. now destruct st.
  - apply filter_length_unique.
  - reflexivity.
  - reflexivity.
Qed.

Lemma upsert_twice ed evs : upsert ed (upsert ed evs) = upsert ed evs.
Proof.
  assert (Hmap : forall l,
            map (fun e => if same_id (id ed) e then ed else e)
                (map (fun e => if same_id (id ed) e then ed else e) l)
            = map (fun e => if same_id (id ed) e then ed else e) l).
  { intros l. rewrite map_map. apply map_ext. intros e.
    destruct (same_id (id ed) e) eqn:E; [| now rewrite E].
    unfold same_id. now rewrite String.eqb_refl. }
  destruct (find (same_id (id ed)) evs) eqn:E.
  - assert (Hs : stored (id ed) evs).
    { apply find_some in E as [Hin He]. apply same_id_iff in He. now exists e. }
    rewrite !(upsert_stored ed evs Hs). rewrite upsert_stored; [apply Hmap |].
    destruct Hs as (e' & Hin & He'). exists ed. split; [| reflexivity].
    apply in_map_iff. exists e'. split; [| exact Hin].
    apply same_id_iff in He'. now rewrite He'.
  - apply find_same_id_None in E. rewrite !(upsert_new ed evs E).
    rewrite upsert_stored.
    + rewrite map_app. cbn [map]. unfold same_id at 2. rewrite String.eqb_refl.
      f_equal. rewrite <- (map_id evs) at 2. apply map_ext_in.
      intros e Hin. destruct (same_id (id ed) e) eqn:Ee; [| reflexivity].
      exfalso. apply E. exists e. split; [exact Hin | now apply same_id_iff].
    + exists ed. split; [apply in_or_app; right; now left | reflexivity].
Qed.

Lemma saved_state st ed :
  editing st = Some ed -> valid ed ->
  run st (saveEvent st) = mkState (upsert ed (events st)) (Some ed) false.
Proof.
  intros He Hv. rewrite (saveEvent_valid st ed He Hv).
  destruct (overlapsWith ed (events st)); cbn; now rewrite He.
Qed.

(** Pressing Save a second time on the same valid form changes nothing
    in the store: the first save put the candidate there, the second puts
    it in its own place. *)
Theorem saveEvent_twice (st : state) (ed : EventItem) :
  editing st = Some ed -> valid ed ->
  let once := run st (saveEvent st) in
  events (run once (saveEvent once)) = events once.
Proof.
  intros He Hv once. subst once. rewrite (saved_state st ed He Hv).
  rewrite (saveEvent_valid_events (mkState (upsert ed (events st)) (Some ed) false)
             ed eq_refl Hv). cbn [events].
  apply upsert_twice.
Qed.

Lemma saveEvent_twice_witness :
  events (run (run (mkState five (Some (sample "7" "Piano" "Monday" "09:00" "10:00")) true)
                   (saveEvent (mkState five
                      (Some (sample "7" "Piano" "Monday" "09:00" "10:00")) true)))
              (saveEvent (run (mkState five
                      (Some (sample "7" "Piano" "Monday" "09:00" "10:00")) true)
                   (saveEvent (mkState five
                      (Some (sample "7" "Piano" "Monday" "09:00" "10:00")) true)))))
  = events (run (mkState five (Some (sample "7" "Piano" "Monday" "09:00" "10:00")) true)
                (saveEvent (mkState five
                   (Some (sample "7" "Piano" "Monday" "09:00" "10:00")) true))).
Proof.
  apply (saveEvent_twice
           (mkState five (Some (sample "7" "Piano" "Monday" "09:00" "10:00")) true)
           (sample "7" "Piano" "Monday" "09:00" "10:00") eq_refl).
  apply valid_checks. split; reflexivity.
Defined.

(** Saving a valid candidate with an id that is not stored and then
    deleting that id gives the store before the save. *)
Theorem save_then_delete (st : state) (ed : EventItem) :
  editing st = Some ed -> valid ed -> ~ stored (id ed) (events st) ->
  let saved := run st (saveEvent st) in
  events (run saved (deleteEvent (id ed) saved)) = events st.
Proof.
  intros He Hv Hn saved. subst saved. rewrite (saved_state st ed He Hv).
  cbn. rewrite (upsert_new ed _ Hn), List.filter_app. cbn [List.filter].
  unfold same_id at 2. rewrite String.eqb_refl. cbn.
  rewrite filter_not_id_absent by exact Hn. apply app_nil_r.
Qed.

Lemma five_has_no_7 : ~ stored "7" five.
Proof.
  intros (e & Hin & He). cbn in Hin.
  repeat (destruct Hin as [<- | Hin]; [discriminate He |]). exact Hin.
Defined.

Lemma save_then_delete_witness :
  events (run (run (mkState five (Some (sample "7" "Piano" "Monday" "09:00" "10:00")) true)
                   (saveEvent (mkState five
                      (Some (sample "7" "Piano" "Monday" "09:00" "10:00")) true)))
              (deleteEvent "7"
                 (run (mkState five (Some (sample "7" "Piano" "Monday" "09:00" "10:00")) true)
                      (saveEvent (mkState five
                         (Some (sample "7" "Piano" "Monday" "09:00" "10:00")) true)))))
  = five.
Proof.
  apply (save_then_delete
           (mkState five (Some (sample "7" "Piano" "Monday" "09:00" "10:00")) true)
           (sample "7" "Piano" "Monday" "09:00" "10:00") eq_refl).
  - apply valid_checks. split; reflexivity.
  - exact five_has_no_7.
Defined.

(** *** The form *)

(** Which error [saveEvent] raises: the title is checked first, and it
    fails exactly for a title of white space only (the empty one
    included); the range check is reached with any other title and fails
    exactly when start is not below end in the order of the strings. *)
Theorem saveEvent_errors (st : state) (ed : EventItem) :
  editing st = Some ed ->
  (saveEvent st = [Alert "Error" "Please add a title"]
   <-> forallb JS.is_space (list_ascii_of_string (title ed)) = true)
  /\ (saveEvent st = [Alert "Error" "End time must be after start time"]
      <-> forallb JS.is_space (list_ascii_of_string (title ed)) = false
          /\ ~ String_as_OT.lt (start ed) (end_ ed)).
Proof.
  intros He.
  assert (Hsp : forallb JS.is_space (list_ascii_of_string (title ed)) = false
                <-> JS.trim (title ed) <> EmptyString).
  { rewrite <- not_true_iff_false. now rewrite trim_empty_iff. }
  rewrite Hsp, <- trim_empty_iff, <- str_geb_iff.
  unfold saveEvent. rewrite He.
  destruct (JS.trim (title ed)) eqn:Et; cbn [JS.truthy negb].
  - split; [split; reflexivity |]. split; [discriminate |]. now intros [H _].
  - destruct (JS.str_geb (start ed) (end_ ed)) eqn:Er.
    + split; [split; discriminate |].
      split; [| reflexivity]. intros _. split; [discriminate | congruence].
    + split.
      * split; [| discriminate]. destruct (overlapsWith ed (events st)); discriminate.
      * split; [| now intros [_ H]].
        destruct (overlapsWith ed (events st)); discriminate.
Qed.

Lemma saveEvent_errors_witness :
  saveEvent (mkState five (Some (sample "7" "   " "Monday" "10:00" "09:00")) true)
  = [Alert "Error" "Please add a title"]
  <-> forallb JS.is_space (list_ascii_of_string "   ") = true.
Proof.
  apply (saveEvent_errors
           (mkState five (Some (sample "7" "   " "Monday" "10:00" "09:00")) true)
           (sample "7" "   " "Monday" "10:00" "09:00")).
  reflexivity.
Defined.

(** The Add flow.  The form that Add Event opens cannot be saved as it
    is: its title is empty.  Once a title that is not blank is typed, Save
    closes the form and appends the event, with the generated id and the
    default day and times, to the end of the store, provided the id is not
    stored yet. *)
Theorem add_flow (uuid accent v : string) (st : state) :
  let form := handleAdd uuid accent st in
  let typed := changeTitle v form in
  (saveEvent form = [Alert "Error" "Please add a title"]
   /\ run form (saveEvent form) = form
   /\ events form = events st)
  /\ (JS.trim v <> EmptyString -> ~ stored uuid (events st) ->
      run typed (saveEvent typed)
      = mkState (events st ++ [mkEvent uuid v "Monday" "09:00" "10:00" "School"
                                       accent (Some EmptyString)])
                (Some (mkEvent uuid v "Monday" "09:00" "10:00" "School"
                               accent (Some EmptyString)))
                false).
Proof.
  cbv zeta. split; [repeat split |].
  intros Hv Hn.
  set (ed := mkEvent uuid v "Monday" "09:00" "10:00" "School" accent (Some EmptyString)).
  assert (Hvalid : valid ed).
  { apply valid_checks. split; [| reflexivity].
    apply negb_false_iff, truthy_iff. exact Hv. }
  change (changeTitle v (handleAdd uuid accent st))
    with (mkState (events st) (Some ed) true).
  rewrite (saved_state (mkState (events st) (Some ed) true) ed eq_refl Hvalid).
  cbn [events].
  now rewrite (upsert_new ed (events st) Hn).
Qed.

(** The heading of the modal tells what Save will do with a valid form:
    under Edit Event the store keeps its length, under Add Event it grows
    by one. *)
Theorem modalTitle_spec (st : state) (ed : EventItem) :
  editing st = Some ed -> valid ed ->
  (modalTitle st = "Edit Event"
   <-> length (events (run st (saveEvent st))) = length (events st))
  /\ (modalTitle st = "Add Event"
      <-> length (events (run st (saveEvent st))) = S (length (events st))).
Proof.
  intros He Hv. rewrite (saveEvent_valid_events st ed He Hv).
  unfold modalTitle, upsert. rewrite He.
  destruct (find (same_id (id ed)) (events st)).
  - rewrite length_map. split; split; try discriminate; try reflexivity; lia.
  - rewrite length_app. cbn. split; split; try discriminate; try reflexivity; lia.
Qed.

Lemma modalTitle_spec_witness :
  modalTitle (mkState five (Some (sample "3" "Bus" "Tuesday" "07:30" "08:00")) true)
  = "Edit Event"
  <-> length (events (run (mkState five (Some (sample "3" "Bus" "Tuesday" "07:30" "08:00")) true)
                          (saveEvent (mkState five
                             (Some (sample "3" "Bus" "Tuesday" "07:30" "08:00")) true))))
      = length five.
Proof.
  apply (modalTitle_spec
           (mkState five (Some (sample "3" "Bus" "Tuesday" "07:30" "08:00")) true)
           (sample "3" "Bus" "Tuesday" "07:30" "08:00") eq_refl).
  apply valid_checks. split; reflexivity.
Defined.

Lemma upsert_same evs e :
  unique_ids evs -> In e evs -> upsert e evs = evs.
Proof.
  intros Hu Hin. rewrite upsert_stored by (exists e; auto).
  rewrite <- (map_id evs) at 2. apply map_ext_in. intros e' Hin'.
  destruct (same_id (id e) e') eqn:E; [| reflexivity].
  apply same_id_iff in E. symmetry. now apply (unique_ids_same evs).
Qed.

(** Opening a stored event and pressing Save without a change leaves the
    store as it is when the ids are pairwise distinct and the event passes
    the checks; an event that does not pass them, as an imported one may,
    is answered with an error, and the store is left as it is too. *)
Theorem edit_unchanged (e : EventItem) (st : state) :
  unique_ids (events st) -> In e (events st) ->
  events (run (pressEvent e st) (saveEvent (pressEvent e st))) = events st.
Proof.
  intros Hu Hin.
  destruct (valid_decidable e) as [Hv | Hv].
  - rewrite (saveEvent_valid_events (pressEvent e st) e eq_refl Hv).
    now apply upsert_same.
  - destruct (saveEvent_invalid (pressEvent e st) e eq_refl Hv) as [m ->].
    reflexivity.
Qed.

Lemma five_unique : unique_ids five.
Proof. apply (bool_decide_unpack _). vm_compute. exact I. Defined.

Lemma edit_unchanged_witness :
  events (run (pressEvent (sample "3" "Bus" "Monday" "08:00" "09:00")
                          (mkState five None false))
              (saveEvent (pressEvent (sample "3" "Bus" "Monday" "08:00" "09:00")
                                     (mkState five None false))))
  = five.
Proof.
  apply (edit_unchanged (sample "3" "Bus" "Monday" "08:00" "09:00")
                        (mkState five None false) five_unique).
  do 2 right. left. reflexivity.
Defined.

(** ** Snapshot codec: write, then load *)

(** What is written under a key is what the loader returns for it
    afterwards, when the storage accepts the write and the value survives
    [JSON.stringify] followed by [JSON.parse]; the other keys load what they
    loaded before; and when the write is refused every key loads what it
    loaded before. *)
Theorem setLS_getLS (JSON_stringify : json -> completion string)
    (JSON_parse : string -> completion json)
    (entries : gmap string string) (key : string) (val : json) (raw : string) :
  JSON_stringify val = Return raw -> raw <> EmptyString ->
  JSON_parse raw = Return val ->
  (forall fallback : json,
     getLS JSON_parse (getItem_of (setLS JSON_stringify true key val entries))
           key fallback
     = Return val)
  /\ (forall (other : string) (fallback : json),
        other <> key ->
        getLS JSON_parse (getItem_of (setLS JSON_stringify true key val entries))
              other fallback
        = getLS JSON_parse (getItem_of entries) other fallback)
  /\ (forall (k : string) (fallback : json),
        getLS JSON_parse (getItem_of (setLS JSON_stringify false key val entries))
              k fallback
        = getLS JSON_parse (getItem_of entries) k fallback).
Proof.
  intros Hs Hraw Hp. unfold setLS, setItem, getLS, getItem_of. rewrite Hs.
  cbn [bind try_catch]. repeat split.
  - intros fallback. rewrite lookup_insert_eq.
    apply truthy_iff in Hraw. now rewrite Hraw, Hp.
  - intros other fallback Hne. now rewrite lookup_insert_ne.
Qed.

Lemma setLS_getLS_witness :
  getLS (fun _ => Return (JBool true))
        (getItem_of (setLS (fun _ => Return "true") true "kwp:dense" (JBool true) ∅))
        "kwp:dense" (JBool false)
  = Return (JBool true).
Proof.
  refine (proj1 (setLS_getLS (fun _ => Return "true") (fun _ => Return (JBool true))
                   ∅ "kwp:dense" (JBool true) "true" eq_refl _ eq_refl) (JBool false)).
  discriminate.
Defined.

(** ** Import: texts without data lines *)

Lemma csv_lines_only_LF text : only_LF text = true -> csv_lines text = [].
Proof.
  unfold csv_lines. induction text as [|c text IH]; [reflexivity |].
  cbn [only_LF JS.split_lines]. intros [Hc Ht]%andb_true_iff.
  rewrite Hc. cbn. now apply IH.
Qed.

Lemma csv_lines_header_only h :
  whole_line h = true ->
  csv_lines h = [h] /\ csv_lines (h ++ str JS.LF) = [h].
Proof.
  intros Hw. unfold csv_lines. split.
  - rewrite split_lines_whole by exact Hw.
    apply filter_truthy_whole. now constructor.
  - unfold str. rewrite split_lines_first by exact Hw.
    cbn. destruct h; [discriminate | reflexivity].
Qed.

(** An empty text, or one of line feeds only, is refused: one error, the
    state untouched.  A text that is one header line and nothing else, with
    or without a final line feed, is imported, and empties the store
    whatever it held. *)
Theorem import_without_rows (randomUUID : nat -> string) (text : string) (st : state) :
  (only_LF text = true ->
   importCSVWeb randomUUID text = [Alert "Error" "Failed to import CSV"]
   /\ run st (importCSVWeb randomUUID text) = st)
  /\ (forall h : string,
        whole_line h = true ->
        text = h \/ text = (h ++ str JS.LF)%string ->
        importCSVWeb randomUUID text
        = [SetEvents []; Alert "Imported" "Imported events from CSV"]
        /\ events (run st (importCSVWeb randomUUID text)) = []).
Proof.
  unfold importCSVWeb, parseCSV. split.
  - intros H. rewrite (csv_lines_only_LF _ H). split; reflexivity.
  - intros h Hw Ht. destruct (csv_lines_header_only h Hw) as [H1 H2].
    destruct Ht as [-> | ->]; rewrite ?H1, ?H2; split; reflexivity.
Qed.

(** ** Export: nothing is lost *)

Lemma strip_prefix_app p s : strip_prefix p (p ++ s) = Some s.
Proof.
  induction p as [|a p IH]; [reflexivity |].
  rewrite append_cons. cbn [strip_prefix]. now rewrite Ascii.eqb_refl.
Qed.

Lemma join_LF_body (l : string) (rows : list (list string)) :
  JS.join (str JS.LF) (l :: map (fun r => JS.join "," (map cell r)) rows)
  = (l ++ csv_body rows)%string.
Proof.
  revert l. induction rows as [|r rows IH]; intros l.
  - cbn. now rewrite append_nil_r.
  - cbn [map csv_body].
    change (JS.join (str JS.LF) (l :: ?x :: ?xs))
      with (l ++ str JS.LF ++ JS.join (str JS.LF) (x :: xs))%string.
    now rewrite IH.
Qed.

Lemma read_cell acc rows cells v rest :
  read_rows (Inside acc) rows cells
    (JS.replaceAll JS.quote (str JS.quote ++ str JS.quote) v ++ String JS.quote rest)
  = read_rows (Pending (acc ++ v)) rows cells rest.
Proof.
  revert acc. induction v as [|c v IH]; intros acc.
  - rewrite append_nil_r. cbn [JS.replaceAll]. rewrite append_nil_l.
    cbn [read_rows]. now rewrite Ascii.eqb_refl.
  - cbn [JS.replaceAll]. destruct (Ascii.eqb c JS.quote) eqn:E.
    + apply Ascii.eqb_eq in E. subst c.
      change (str JS.quote ++ str JS.quote)%string
        with (String JS.quote (String JS.quote EmptyString)) at 1.
      rewrite !append_cons, append_nil_l. cbn [read_rows].
      rewrite Ascii.eqb_refl, IH. unfold str. now rewrite append_assoc.
    + rewrite append_cons. cbn [read_rows]. rewrite E, IH.
      unfold str. now rewrite append_assoc.
Qed.

Lemma read_cell_open rows cells v rest :
  read_rows Open rows cells (cell v ++ rest) = read_rows (Pending v) rows cells rest.
Proof.
  unfold cell. rewrite !append_assoc.
  change (str JS.quote ++ ?x)%string with (String JS.quote x) at 1.
  cbn [read_rows]. rewrite Ascii.eqb_refl.
  change (str JS.quote ++ rest)%string with (String JS.quote rest).
  now rewrite read_cell, append_nil_l.
Qed.

Lemma read_line rows cells v vs :
  read_rows Open rows cells (JS.join "," (map cell (v :: vs)))
  = Some (rows ++ [cells ++ v :: vs])
  /\ forall rest : string,
       read_rows Open rows cells
         (JS.join "," (map cell (v :: vs)) ++ String JS.LF rest)
       = read_rows Open (rows ++ [cells ++ v :: vs]) [] rest.
Proof.
  revert v cells. induction vs as [|w vs IH]; intros v cells.
  - cbn [map JS.join]. split.
    + rewrite <- (append_nil_r (cell v)). now rewrite read_cell_open.
    + intros rest. now rewrite read_cell_open.
  - change (JS.join "," (map cell (v :: w :: vs)))
      with (cell v ++ String JS.comma (JS.join "," (map cell (w :: vs))))%string.
    destruct (IH w (cells ++ [v])) as [IH1 IH2].
    rewrite <- !(app_assoc cells [v]) in *. cbn [app] in *. split.
    + rewrite read_cell_open. cbn [read_rows]. exact IH1.
    + intros rest. rewrite append_assoc, read_cell_open, append_cons.
      cbn [read_rows]. apply IH2.
Qed.

Lemma read_body rows r rs :
  r <> [] -> Forall (fun r => r <> []) rs ->
  read_rows Open rows [] (JS.join "," (map cell r) ++ csv_body rs)
  = Some (rows ++ r :: rs).
Proof.
  intros Hr Hrs. revert r rows Hr. induction Hrs as [|r' rs Hr' _ IH]; intros r rows Hr.
  - destruct r as [|v vs]; [contradiction |].
    cbn [csv_body]. rewrite append_nil_r. apply read_line.
  - destruct r as [|v vs]; [contradiction |].
    cbn [csv_body]. rewrite (proj2 (read_line rows [] v vs)).
    rewrite (IH r' _ Hr'). now rewrite <- app_assoc.
Qed.

Lemma csv_as_body evs :
  csv evs = (JS.join "," header ++ csv_body (map fields_of evs))%string.
Proof.
  unfold csv, csv_rows. change (map (fun e => map (fun h => default EmptyString (prop e h)) header) evs)
    with (map fields_of evs).
  apply join_LF_body.
Qed.

(** The exported text determines every exported field of every event, in
    store order: reading it back by the rules of RFC 4180 gives the seven
    fields of each event, so two stores with the same export agree on all
    of them. *)
Theorem export_lossless (evs : list EventItem) :
  read_csv (csv evs) = Some (map fields_of evs)
  /\ forall evs' : list EventItem,
       csv evs = csv evs' -> map fields_of evs = map fields_of evs'.
Proof.
  assert (Hread : forall l, read_csv (csv l) = Some (map fields_of l)).
  { intros l. unfold read_csv. rewrite csv_as_body, strip_prefix_app.
    destruct l as [|e l]; [reflexivity |].
    cbn [map csv_body]. rewrite Ascii.eqb_refl.
    apply (read_body [] (fields_of e) (map fields_of l)); [discriminate |].
    apply Forall_map, Forall_forall. intros; discriminate. }
  split; [apply Hread |].
  intros evs' H. pose proof (Hread evs) as H1. rewrite H, Hread in H1.
  now injection H1.
Qed.

(** *** Times that are not numbers *)

Lemma not_numeral_char c :
  numeral_char c = false -> JS.is_digit c = false /\ JS.is_space c = false.
Proof.
  unfold numeral_char. intros H.
  apply orb_false_iff in H as [H _]. now apply orb_false_iff in H.
Qed.

Lemma not_numeral_trimStart s : not_numeral (JS.trimStart s) = not_numeral s.
Proof.
  induction s as [|c s IH]; [reflexivity |].
  cbn [JS.trimStart]. destruct (JS.is_space c) eqn:E; [| reflexivity].
  rewrite IH. cbn [not_numeral]. unfold numeral_char. rewrite E, orb_true_r.
  reflexivity.
Qed.

Lemma not_numeral_trimEnd s : not_numeral (JS.trimEnd s) = not_numeral s.
Proof.
  induction s as [|c s IH]; [reflexivity |].
  cbn [JS.trimEnd not_numeral]. rewrite <- IH.
  destruct (JS.trimEnd s) as [|d t]; [| reflexivity].
  cbn [not_numeral]. rewrite orb_false_r.
  destruct (JS.is_space c) eqn:E; [| cbn; now rewrite orb_false_r].
  cbn. unfold numeral_char. now rewrite E, orb_true_r.
Qed.

Lemma not_numeral_digits acc s : not_numeral s = true -> JS.digits acc s = None.
Proof.
  revert acc. induction s as [|c s IH]; intros acc; [discriminate |].
  cbn [not_numeral JS.digits]. destruct (JS.is_digit c) eqn:E; [| reflexivity].
  unfold numeral_char. rewrite E. cbn. apply IH.
Qed.

Lemma Number_not_numeral s : not_numeral s = true -> JS.Number s = JS.NaN.
Proof.
  intros H. unfold JS.Number, JS.trim.
  rewrite <- not_numeral_trimStart, <- not_numeral_trimEnd in H.
  destruct (JS.trimEnd (JS.trimStart s)) as [|c t] eqn:E; [discriminate |].
  now rewrite (not_numeral_digits 0 _ H).
Qed.

Lemma timeToRow_not_numeral time :
  not_numeral (hour_part time) = true -> timeToRow time = JS.NaN.
Proof.
  unfold hour_part, timeToRow.
  destruct (JS.split JS.colon time) as [|p ps]; [discriminate |].
  intros H. cbn [map lookup list_lookup]. now rewrite (Number_not_numeral p H).
Qed.

Lemma overlaps_no_row (a b : EventItem) :
  timeToRow (start a) = JS.NaN \/ timeToRow (end_ a) = JS.NaN ->
  overlaps a b = false /\ overlaps b a = false.
Proof.
  intros H.
  assert (Hab : overlaps a b = false).
  { unfold overlaps. destruct (negb (day a =? day b)%string); [reflexivity |].
    destruct H as [-> | ->]; [reflexivity |].
    destruct (JS.max _ _); reflexivity. }
  split; [exact Hab |]. now rewrite overlaps_sym_aux.
Qed.

(** An event one of whose times has, before its first colon, a character
    that occurs in no numeral (any letter of [9pm], say) is never reported
    as overlapping: its hour is [NaN], and so are its row and both sides of
    the comparison. *)
Theorem overlaps_not_a_number (a b : EventItem) :
  not_numeral (hour_part (start a)) = true
  \/ not_numeral (hour_part (end_ a)) = true ->
  overlaps a b = false /\ overlaps b a = false.
Proof.
  intros H. apply overlaps_no_row.
  destruct H as [H | H]; [left | right]; now apply timeToRow_not_numeral.
Qed.

Lemma overlaps_not_a_number_witness :
  overlaps (sample "1" "Nap" "Monday" "12pm" "1pm")
           (sample "2" "Lunch" "Monday" "12:00" "13:00") = false
  /\ overlaps (sample "2" "Lunch" "Monday" "12:00" "13:00")
              (sample "1" "Nap" "Monday" "12pm" "1pm") = false.
Proof.
  apply (overlaps_not_a_number (sample "1" "Nap" "Monday" "12pm" "1pm")
                               (sample "2" "Lunch" "Monday" "12:00" "13:00")).
  left. reflexivity.
Defined.

(** *** The Delete button *)

(** The Delete button closes the modal.  With a non-empty id in the form
    it removes the events of that id and no other; with an empty id, or
    with an id that is not stored, as in a form opened by Add Event, the
    store stays as it is. *)
Theorem delete_button_spec (st : state) (ed : EventItem) :
  editing st = Some ed ->
  open (run st (pressDelete st)) = false
  /\ (id ed <> EmptyString ->
      forall e : EventItem,
        In e (events (run st (pressDelete st))) <-> In e (events st) /\ id e <> id ed)
  /\ (id ed = EmptyString \/ ~ stored (id ed) (events st) ->
      events (run st (pressDelete st)) = events st).
Proof.
  intros He. unfold pressDelete. rewrite He.
  destruct (JS.truthy (id ed)) eqn:Et.
  - cbn. split; [reflexivity |]. split.
    + intros _ e. apply filter_not_id_In.
    + intros [H | H].
      * apply truthy_iff in Et. contradiction.
      * now apply filter_not_id_absent.
  - cbn. split; [reflexivity |]. split; [| reflexivity].
    intros H. apply truthy_iff in H. congruence.
Qed.

Lemma delete_button_spec_witness :
  open (run (pressEvent (sample "3" "Bus" "Monday" "08:00" "09:00") (mkState five None false))
            (pressDelete (pressEvent (sample "3" "Bus" "Monday" "08:00" "09:00")
                                     (mkState five None false))))
  = false.
Proof.
  apply (delete_button_spec
           (pressEvent (sample "3" "Bus" "Monday" "08:00" "09:00") (mkState five None false))
           (sample "3" "Bus" "Monday" "08:00" "09:00")).
  reflexivity.
Defined.

(** *** Round trip of a plain store *)

Lemma two_plain : Forall plain_event two.
Proof. repeat constructor. Defined.

Lemma csv_round_trip_plain_witness :
  map fields_of (events (run (mkState two None false)
                             (importCSVWeb letter (csv (events (mkState two None false))))))
  = map fields_of two
  /\ map id (events (run (mkState two None false)
                         (importCSVWeb letter (csv (events (mkState two None false))))))
     = map letter (seq 0 (length two)).
Proof.
  apply (csv_round_trip_plain letter (mkState two None false)). exact two_plain.
Defined.
